(** * HashRelation: the build-side index of the columnar hash join

    A shallow embedding of
    [oap-native-sql/cpp/src/codegen/common/hash_relation.h].

    The C++ object state is threaded explicitly: every member function is a
    function from the pair (object, heap) to an outcome and a new pair.  The
    heap maps the address of a map header to the [unsafeHashMap] stored there,
    so that [hash_table_] stays a raw pointer as in the source. *)

From Stdlib Require Import ZArith List Bool Lia String.
From stdpp Require Import base option list gmap strings.
Import ListNotations.
Local Open Scope Z_scope.

(** ** Machine integers *)

(** Conversion to [uint32_t]. *)
Definition to_uint32 (z : Z) : Z := z mod 2 ^ 32.
(** Conversion to [uint64_t]. *)
Definition to_uint64 (z : Z) : Z := z mod 2 ^ 64.
(** The cast [(int)e]. *)
Definition to_int (z : Z) : Z := (z + 2 ^ 31) mod 2 ^ 32 - 2 ^ 31.

(** ** Outcomes of a member function *)

(** [arrow::Status] codes used by the file. *)
Inductive Status : Set :=
| OK
| NotImplemented
| CapacityError
| Invalid.

#[global] Instance Status_eq_dec : EqDecision Status.
Proof. solve_decision. Defined.

(** A call either returns, throws [std::runtime_error], dies in a failed
    [assert], or leaves defined behaviour (a read or write through a pointer
    or an index that designates nothing). *)
Inductive result (A : Type) : Type :=
| Ret (a : A)
| Throw (what : string)
| Abort
| Undefined.
Arguments Ret {A} a.
Arguments Throw {A} what.
Arguments Abort {A}.
Arguments Undefined {A}.

(** A fatal condition is anything that is not a returned value. *)
Definition is_fatal {A : Type} (r : result A) : bool :=
  match r with
  | Ret _ => false
  | Throw _ | Abort => true
  | Undefined => false
  end.

(** ** Row locators and keys *)

(** Modelled from the spec: [ArrayItemIndex] is declared in
    [codegen/arrow_compute/ext/array_item_index.h], which is absent; section 3
    gives it as the pair (batch_id : u32, row_offset : u32).  [Insert] builds
    it from two [uint32_t] arguments. *)
Record ArrayItemIndex : Set := mkArrayItemIndex { array_id : Z; id : Z }.

#[global] Instance ArrayItemIndex_eq_dec : EqDecision ArrayItemIndex.
Proof. solve_decision. Defined.

(** [sizeof(ArrayItemIndex)] for two 32-bit fields. *)
Definition sizeof_ArrayItemIndex : Z := 8.

#[global] Instance byte_eq_dec : EqDecision Byte.byte := Byte.byte_eq_dec.

(** Modelled from the spec: [UnsafeRow] comes from the absent
    [third_party/row_wise_memory]; section 4.2 describes one binary buffer per
    row that is reset and refilled, compared by its full contents. *)
Record UnsafeRow : Set := mkUnsafeRow { numFields : Z; row_data : list Byte.byte }.

Definition UnsafeRow_new (fields : Z) : UnsafeRow :=
  {| numFields := fields; row_data := [] |}.

Definition UnsafeRow_reset (r : UnsafeRow) : UnsafeRow :=
  {| numFields := numFields r; row_data := [] |}.

(** Modelled from the spec: [UnsafeArray] ([precompile/unsafe_array.h], absent)
    is a column that can add its value at a row offset to a row buffer. *)
Record UnsafeArray : Type := mkUnsafeArray { Append : nat -> UnsafeRow -> UnsafeRow }.

(** The three kinds of key the index is probed and built with: a number (its
    bit pattern), a string (its bytes), a composite row (its buffer).  Keys of
    different kinds are never equal. *)
Inductive Key : Set :=
| NumKey (bits : Z)
| StrKey (bytes : string)
| RowKey (buffer : list Byte.byte).

#[global] Instance Key_eq_dec : EqDecision Key.
Proof. solve_decision. Defined.

(** ** Arrays *)

(** One slot of an Arrow array: the validity bit and the stored value.  The
    value buffer holds something at a null slot too, and [GetView] reads it
    without looking at the validity bit. *)
Record Slot (T : Type) : Type := mkSlot { slot_valid : bool; slot_raw : T }.
Arguments mkSlot {T} slot_valid slot_raw.
Arguments slot_valid {T} s.
Arguments slot_raw {T} s.

Definition valid {T : Type} (x : T) : Slot T := mkSlot true x.
Definition null {T : Type} (x : T) : Slot T := mkSlot false x.

(** The hash column, wrapped as [Int32Array]. *)
Definition Int32Array : Type := list Z.
(** A key column of a number type. *)
Definition NumericArray : Type := list (Slot Z).
(** A key column of strings. *)
Definition StringArray : Type := list (Slot string).

Definition IsNull {T : Type} (a : list (Slot T)) (i : nat) : result bool :=
  match a !! i with
  | Some s => Ret (negb (slot_valid s))
  | None => Undefined
  end.

Definition GetView {T : Type} (a : list (Slot T)) (i : nat) : result T :=
  match a !! i with
  | Some s => Ret (slot_raw s)
  | None => Undefined
  end.

(** ** The underlying growable hash map *)

(** Modelled from the spec: [HASH_NEW_KEY] is a macro of the absent
    [third_party/row_wise_memory/hashMap.h]; the spec calls it the
    distinguished "new key" sentinel, and [Get] tests a miss with
    [res == -1]. *)
Definition HASH_NEW_KEY : Z := -1.

(** One distinct key of the multimap with the chain of payload records that
    were inserted under it, oldest first. *)
Record Entry : Set := mkEntry {
  entry_hash : Z;
  entry_key : Key;
  entry_records : list ArrayItemIndex
}.

(** Modelled from the spec: the struct [unsafeHashMap] of the absent
    [hashMap.h].  The fields [keyArray], [bytesMap], [arrayCapacity],
    [bytesInKeyArray] and [cursor] are the ones the source reads and writes;
    [mapSize] and [keySize] keep the other two arguments of
    [createUnsafeHashMap]; [entries] is the content of the two regions, one
    entry per distinct key in order of first insertion (section 4.4).  Growing
    the key-slot array re-indexes the same records and does not show in
    [entries]; [arrayCapacity] is kept as created. *)
Record unsafeHashMap : Set := mkUnsafeHashMap {
  keyArray : Z;
  bytesMap : Z;
  arrayCapacity : Z;
  bytesInKeyArray : Z;
  keySize : Z;
  mapSize : Z;
  cursor : Z;
  entries : list Entry
}.

Definition entry_matches (k : Key) (h : Z) (e : Entry) : bool :=
  bool_decide (entry_hash e = h) && bool_decide (entry_key e = k).

Fixpoint find_entry (es : list Entry) (k : Key) (h : Z) : option Entry :=
  match es with
  | [] => None
  | e :: rest => if entry_matches k h e then Some e else find_entry rest k h
  end.

(** Chains one more payload record onto the entry of ([k], [h]), or opens a
    new entry at the end when there is none. *)
Fixpoint chain_record (es : list Entry) (k : Key) (h : Z) (payload : ArrayItemIndex)
  : list Entry :=
  match es with
  | [] => [ {| entry_hash := h; entry_key := k; entry_records := [payload] |} ]
  | e :: rest =>
      if entry_matches k h e
      then {| entry_hash := entry_hash e; entry_key := entry_key e;
              entry_records := entry_records e ++ [payload] |} :: rest
      else e :: chain_record rest k h payload
  end.

(** Bytes of the key that go to the bytes region: the bytes of a string or of
    a row buffer; a fixed-width number stays in its key slot. *)
Definition key_region_bytes (k : Key) : Z :=
  match k with
  | NumKey _ => 0
  | StrKey s => Z.of_nat (String.length s)
  | RowKey b => Z.of_nat (List.length b)
  end.

(** Bytes one insertion adds to the bytes region. *)
Definition record_bytes (m : unsafeHashMap) (k : Key) (h : Z) (vlen : Z) : Z :=
  match find_entry (entries m) k h with
  | Some _ => vlen
  | None => key_region_bytes k + vlen
  end.

(** What the allocator picks inside [createUnsafeHashMap]: the addresses of
    the header, of the key-slot array and of the bytes region, and the stride
    of a key slot.  The spec fixes none of them. *)
Record Allocation : Set := mkAllocation {
  alloc_header : Z;
  alloc_keyArray : Z;
  alloc_bytesMap : Z;
  alloc_stride : Z
}.

(** Modelled from the spec: [createUnsafeHashMap] of the absent [hashMap.h]
    (section 4.4, Create(initial_capacity, max_bytes, key_width_hint)): an
    empty map with that many key slots, that bound on the bytes region and
    that key width. *)
Definition createUnsafeHashMap (where_ : Allocation)
    (initArrayCapacity initialHashMapSize keySize_ : Z) : unsafeHashMap :=
  {| keyArray := alloc_keyArray where_;
     bytesMap := alloc_bytesMap where_;
     arrayCapacity := initArrayCapacity;
     bytesInKeyArray := alloc_stride where_;
     keySize := keySize_;
     mapSize := initialHashMapSize;
     cursor := 0;
     entries := [] |}.

(** Modelled from the spec: [append] of the absent [hashMap.h] (section 4.4,
    Insert).  A present key gets one more chained record, an absent key a new
    entry; nothing is overwritten.  The call fails, changing nothing, when the
    bytes region cannot take the record within [mapSize]. *)
Definition append (m : unsafeHashMap) (k : Key) (h : Z)
    (payload : ArrayItemIndex) (vlen : Z) : option unsafeHashMap :=
  let need := record_bytes m k h vlen in
  if cursor m + need <=? mapSize m
  then Some {| keyArray := keyArray m;
               bytesMap := bytesMap m;
               arrayCapacity := arrayCapacity m;
               bytesInKeyArray := bytesInKeyArray m;
               keySize := keySize m;
               mapSize := mapSize m;
               cursor := cursor m + need;
               entries := chain_record (entries m) k h payload |}
  else None.

(** Modelled from the spec: the three-argument [safeLookup] of the absent
    [hashMap.h] (section 4.4, Lookup): 0 when an entry has this hash and these
    key bytes, the sentinel otherwise. *)
Definition safeLookup (m : unsafeHashMap) (k : Key) (h : Z) : Z :=
  match find_entry (entries m) k h with
  | Some _ => 0
  | None => HASH_NEW_KEY
  end.

(** Modelled from the spec: the [safeLookup] that takes an output vector; on a
    hit the vector is replaced by the records of the entry, on a miss it is
    left as it was (section 4.5, Get). *)
Definition safeLookup_out (m : unsafeHashMap) (k : Key) (h : Z)
    (output : list ArrayItemIndex) : Z * list ArrayItemIndex :=
  match find_entry (entries m) k h with
  | Some e => (0, entry_records e)
  | None => (HASH_NEW_KEY, output)
  end.

(** The records stored under ([k], [h]); empty when the key is absent. *)
Definition bucket (m : unsafeHashMap) (k : Key) (h : Z) : list ArrayItemIndex :=
  match find_entry (entries m) k h with
  | Some e => entry_records e
  | None => []
  end.

(** Modelled from the spec: [destroyHashMap] of the absent [hashMap.h]
    (section 4.4, Destroy) releases the map that lives at [p]. *)
Definition destroyHashMap (heap : gmap Z unsafeHashMap) (p : Z) : gmap Z unsafeHashMap :=
  delete p heap.

(** ** Column stores *)

Inductive DataType : Set :=
| Int8Type | Int16Type | Int32Type | Int64Type
| UInt8Type | UInt16Type | UInt32Type | UInt64Type
| FloatType | DoubleType | Date32Type | Date64Type
| StringType.

#[global] Instance DataType_eq_dec : EqDecision DataType.
Proof. solve_decision. Defined.

Inductive Value : Set :=
| NumValue (x : Z)
| StrValue (s : string).

(** An [arrow::Array] as the column store receives it: its type and slots. *)
Record Array : Set := mkArray {
  array_type : DataType;
  array_slots : list (Slot Value)
}.

(** The typed wrapper made by [std::make_shared<ArrayType>(in)]; [cache_] is
    the array it was made from, which [GetArrayVector] hands back. *)
Record TypedArray : Set := mkTypedArray { cache_ : Array }.

(** The two specialisations of [TypedHashRelationColumn]: [enable_if_number]
    and [enable_if_string_like], with the template argument. *)
Inductive Specialization : Set :=
| NumberColumn (t : DataType)
| StringLikeColumn (t : DataType).

Record HashRelationColumn : Set := mkHashRelationColumn {
  specialization : Specialization;
  array_vector_ : list TypedArray
}.

(** The array type the specialisation wraps its input in:
    [TypeTraits<DataType>::ArrayType] for numbers, [StringArray] for strings. *)
Definition wrapper_type (s : Specialization) : DataType :=
  match s with
  | NumberColumn t => t
  | StringLikeColumn _ => StringType
  end.

(** An array fits a column when its type is the one the wrapper stands for. *)
Definition compatible (c : HashRelationColumn) (a : Array) : bool :=
  bool_decide (array_type a = wrapper_type (specialization c)).

(** [AppendColumn] of both specialisations.  The constructor of the wrapper is
    in the absent [precompile] sources and is the argument [wrap]: given the
    wrapper's type and the array it yields the wrapper or does not return. *)
Definition AppendColumn (wrap : DataType -> Array -> result TypedArray)
    (c : HashRelationColumn) (in_ : Array) : result Status * HashRelationColumn :=
  match wrap (wrapper_type (specialization c)) in_ with
  | Ret typed_in =>
      (Ret OK, {| specialization := specialization c;
                  array_vector_ := array_vector_ c ++ [typed_in] |})
  | Throw w => (Throw w, c)
  | Abort => (Abort, c)
  | Undefined => (Undefined, c)
  end.

(** [AppendColumn] of the base class. *)
Definition AppendColumn_base (in_ : Array) : result Status := Ret NotImplemented.

Definition GetArrayVector (c : HashRelationColumn) (out : list Array)
  : result Status * list Array :=
  (Ret OK, out ++ map cache_ (array_vector_ c)).

(** A wrapper constructor that keeps the array without looking at its type. *)
Definition wrap_unchecked (t : DataType) (a : Array) : result TypedArray :=
  Ret {| cache_ := a |}.

(** ** The relation *)

Record HashRelation : Type := mkHashRelation {
  unsafe_set : bool;
  num_arrays_ : Z;
  hash_relation_column_list_ : list HashRelationColumn;
  hash_table_ : Z;
  null_index_set_ : bool;
  null_index_list_ : list ArrayItemIndex;
  arrayid_list_ : list ArrayItemIndex
}.

(** The null pointer. *)
Definition nullptr : Z := 0.

(** The object and the heap its pointer points into. *)
Definition State : Type := HashRelation * gmap Z unsafeHashMap.

(** A member function. *)
Definition M (A : Type) : Type := State -> result A * State.

Definition ret {A : Type} (a : A) : M A := fun st => (Ret a, st).

Definition bind {A B : Type} (c : M A) (f : A -> M B) : M B :=
  fun st =>
    match c st with
    | (Ret a, st') => f a st'
    | (Throw w, st') => (Throw w, st')
    | (Abort, st') => (Abort, st')
    | (Undefined, st') => (Undefined, st')
    end.

(** The macro [RETURN_NOT_OK(c); k]. *)
Definition RETURN_NOT_OK (c : M Status) (k : M Status) : M Status :=
  bind c (fun s => match s with OK => k | _ => ret s end).

(** An argument whose evaluation may leave defined behaviour. *)
Definition eval {A : Type} (r : result A) : M A := fun st => (r, st).

(** The member initialisers of the class. *)
Definition HashRelation_init : HashRelation :=
  {| unsafe_set := false;
     num_arrays_ := 0;
     hash_relation_column_list_ := [];
     hash_table_ := nullptr;
     null_index_set_ := false;
     null_index_list_ := [];
     arrayid_list_ := [] |}.

(** The type of the unused [arrow::compute::FunctionContext*]. *)
Definition FunctionContext : Set := Z.

(** [HashRelation(ctx)]. *)
Definition HashRelation_ctx (ctx : FunctionContext) : HashRelation := HashRelation_init.

(** [HashRelation(hash_relation_list)]. *)
Definition HashRelation_columns (hash_relation_list : list HashRelationColumn)
  : HashRelation :=
  {| unsafe_set := false;
     num_arrays_ := 0;
     hash_relation_column_list_ := hash_relation_list;
     hash_table_ := nullptr;
     null_index_set_ := false;
     null_index_list_ := [];
     arrayid_list_ := [] |}.

Definition set_hash_table (this : HashRelation) (p : Z) : HashRelation :=
  {| unsafe_set := unsafe_set this;
     num_arrays_ := num_arrays_ this;
     hash_relation_column_list_ := hash_relation_column_list_ this;
     hash_table_ := p;
     null_index_set_ := null_index_set_ this;
     null_index_list_ := null_index_list_ this;
     arrayid_list_ := arrayid_list_ this |}.

(** [HashRelation(ctx, hash_relation_column, key_size)]; [where_] is what the
    allocator returns inside [createUnsafeHashMap]. *)
Definition HashRelation_new (where_ : Allocation) (ctx : FunctionContext)
    (hash_relation_column : list HashRelationColumn) (key_size : Z)
    (heap : gmap Z unsafeHashMap) : State :=
  let this := HashRelation_columns hash_relation_column in
  let table := createUnsafeHashMap where_ (1024 * 1024) (256 * 1024 * 1024) key_size in
  (set_hash_table this (alloc_header where_), <[alloc_header where_ := table]> heap).

(** A call the destructor makes. *)
Inductive Call : Set :=
| Call_destroyHashMap (p : Z).

(** [~HashRelation()]: the calls made, and what is left. *)
Definition HashRelation_destroy (st : State) : list Call * State :=
  let '(this, heap) := st in
  if negb (bool_decide (hash_table_ this = nullptr)) && negb (unsafe_set this)
  then ([Call_destroyHashMap (hash_table_ this)],
        (set_hash_table this nullptr, destroyHashMap heap (hash_table_ this)))
  else ([], st).

(** The virtual [AppendKeyColumn(in)] of the base class. *)
Definition AppendKeyColumn_base (in_ : Int32Array) : M Status := ret NotImplemented.

(** Both overloads of [Insert]; the row overload passes the buffer of the row
    ([payload.get()]), the template one a number or a string. *)
Definition Insert (v : Z) (payload : Key) (array_id_ id_ : Z) : M Status :=
  fun st =>
    let '(this, heap) := st in
    if bool_decide (hash_table_ this = nullptr) then (Abort, st)
    else
      let index := mkArrayItemIndex array_id_ id_ in
      match heap !! hash_table_ this with
      | None => (Undefined, st)
      | Some m =>
          match append m payload v index sizeof_ArrayItemIndex with
          | None => (Ret CapacityError, st)
          | Some m' => (Ret OK, (this, <[hash_table_ this := m']> heap))
          end
      end.

Definition Insert_row (v : Z) (payload : UnsafeRow) (array_id_ id_ : Z) : M Status :=
  Insert v (RowKey (row_data payload)) array_id_ id_.

Definition InsertNull (array_id_ id_ : Z) : M Status :=
  fun st =>
    let '(this, heap) := st in
    let list' :=
      if negb (null_index_set_ this)
      then [mkArrayItemIndex array_id_ id_]
      else null_index_list_ this ++ [mkArrayItemIndex array_id_ id_] in
    (Ret OK,
     ({| unsafe_set := unsafe_set this;
         num_arrays_ := num_arrays_ this;
         hash_relation_column_list_ := hash_relation_column_list_ this;
         hash_table_ := hash_table_ this;
         null_index_set_ := true;
         null_index_list_ := list';
         arrayid_list_ := arrayid_list_ this |}, heap)).

(** The body shared by the three loops
    [for (int i = 0; i < typed_array->length(); i++) RETURN_NOT_OK(Insert(...))]:
    [typed_array] is what is left of the hash column from row [i] on, [key_at]
    evaluates the key argument of row [i].  The counter and the row offset are
    converted to [uint32_t] at the call. *)
Fixpoint insert_rows (key_at : nat -> result Key) (typed_array : Int32Array) (i : nat)
  : M Status :=
  match typed_array with
  | [] => ret OK
  | v :: rest =>
      RETURN_NOT_OK
        (bind (eval (key_at i)) (fun k st =>
           Insert v k (to_uint32 (num_arrays_ (fst st))) (to_uint32 (Z.of_nat i)) st))
        (insert_rows key_at rest (S i))
  end.

Definition set_num_arrays (this : HashRelation) (n : Z) : HashRelation :=
  {| unsafe_set := unsafe_set this;
     num_arrays_ := n;
     hash_relation_column_list_ := hash_relation_column_list_ this;
     hash_table_ := hash_table_ this;
     null_index_set_ := null_index_set_ this;
     null_index_list_ := null_index_list_ this;
     arrayid_list_ := arrayid_list_ this |}.

(** [num_arrays_++]. *)
Definition increment_num_arrays : M Status :=
  fun st =>
    let '(this, heap) := st in
    (Ret OK, (set_num_arrays this (to_uint64 (num_arrays_ this + 1)), heap)).

(** The loop of an overload followed by [num_arrays_++; return OK]. *)
Definition append_batch (key_at : nat -> result Key) (typed_array : Int32Array) : M Status :=
  RETURN_NOT_OK (insert_rows key_at typed_array 0) increment_num_arrays.

(** The composite key of row [i]: the row is reset and every payload column
    appends its value. *)
Definition encode_row (payloads : list UnsafeArray) (i : nat) : UnsafeRow :=
  fold_left (fun payload payload_arr => Append payload_arr i payload) payloads
    (UnsafeRow_reset (UnsafeRow_new (Z.of_nat (List.length payloads)))).

(** [AppendKeyColumn(in, payloads)]. *)
Definition AppendKeyColumn_payloads (in_ : Int32Array) (payloads : list UnsafeArray)
  : M Status :=
  append_batch (fun i => Ret (RowKey (row_data (encode_row payloads i)))) in_.

(** The template [AppendKeyColumn(in, original_key)] for a number column. *)
Definition AppendKeyColumn (in_ : Int32Array) (original_key : NumericArray) : M Status :=
  append_batch
    (fun i => match GetView original_key i with
              | Ret x => Ret (NumKey x)
              | Throw w => Throw w
              | Abort => Abort
              | Undefined => Undefined
              end) in_.

(** [AppendKeyColumn(in, original_key)] for a [StringArray]. *)
Definition AppendKeyColumn_string (in_ : Int32Array) (original_key : StringArray)
  : M Status :=
  append_batch
    (fun i => match GetView original_key i with
              | Ret x => Ret (StrKey x)
              | Throw w => Throw w
              | Abort => Abort
              | Undefined => Undefined
              end) in_.

Definition set_arrayid_list (this : HashRelation) (l : list ArrayItemIndex) : HashRelation :=
  {| unsafe_set := unsafe_set this;
     num_arrays_ := num_arrays_ this;
     hash_relation_column_list_ := hash_relation_column_list_ this;
     hash_table_ := hash_table_ this;
     null_index_set_ := null_index_set_ this;
     null_index_list_ := null_index_list_ this;
     arrayid_list_ := l |}.

(** The three overloads of [Get]; the constructor of the key says which:
    [NumKey] the template for numbers, [StrKey] the one for [std::string],
    [RowKey] the one for [UnsafeRow].  Their bodies are the same. *)
Definition Get (v : Z) (payload : Key) : M Z :=
  fun st =>
    let '(this, heap) := st in
    if bool_decide (hash_table_ this = nullptr)
    then (Throw "HashRelation Get failed, hash_table is null.", st)
    else
      match heap !! hash_table_ this with
      | None => (Undefined, st)
      | Some m =>
          let '(res, out) := safeLookup_out m payload v (arrayid_list_ this) in
          let st' := (set_arrayid_list this out, heap) in
          if res =? -1 then (Ret (-1), st') else (Ret 0, st')
      end.

(** The three overloads of [IfExists], as for [Get]. *)
Definition IfExists (v : Z) (payload : Key) : M Z :=
  fun st =>
    let '(this, heap) := st in
    if bool_decide (hash_table_ this = nullptr)
    then (Throw "HashRelation Get failed, hash_table is null.", st)
    else
      match heap !! hash_table_ this with
      | None => (Undefined, st)
      | Some m => (Ret (safeLookup m payload v), st)
      end.

Definition GetNull (this : HashRelation) : Z :=
  if null_index_set_ this then 0 else HASH_NEW_KEY.

Definition GetItemListByIndex (this : HashRelation) (i : Z) : list ArrayItemIndex :=
  arrayid_list_ this.

(** [UnsafeGetHashTableObject(addrs, sizes)]: the two caller buffers come in
    as lists and go out with the outcome.  [sizeof_unsafeHashMap] is the size
    of the struct of the absent header. *)
Definition UnsafeGetHashTableObject (sizeof_unsafeHashMap : Z) (addrs sizes : list Z)
  : M (Status * (list Z * list Z)) :=
  fun st =>
    let '(this, heap) := st in
    if bool_decide (hash_table_ this = nullptr)
    then (Ret (Invalid, (addrs, sizes)), st)
    else
      match heap !! hash_table_ this with
      | None => (Undefined, st)
      | Some m =>
          if bool_decide (3 <= List.length addrs)%nat && bool_decide (3 <= List.length sizes)%nat
          then
            let addrs' :=
              <[2%nat := bytesMap m]> (<[1%nat := keyArray m]> (<[0%nat := hash_table_ this]> addrs)) in
            let sizes' :=
              <[2%nat := to_int (cursor m)]>
                (<[1%nat := to_int (arrayCapacity m * bytesInKeyArray m)]>
                   (<[0%nat := to_int sizeof_unsafeHashMap]> sizes)) in
            (Ret (OK, (addrs', sizes')), st)
          else (Undefined, st)
      end.

(** [UnsafeSetHashTableObject(len, addrs, sizes)]. *)
Definition UnsafeSetHashTableObject (len : Z) (addrs sizes : list Z) : M Status :=
  fun st =>
    let '(this, heap) := st in
    if negb (len =? 3) then (Abort, st)
    else
      match addrs !! 0%nat, addrs !! 1%nat, addrs !! 2%nat, sizes !! 2%nat with
      | Some a0, Some a1, Some a2, Some s2 =>
          if bool_decide (a0 = nullptr) then (Undefined, st)
          else
            match heap !! a0 with
            | None => (Undefined, st)
            | Some m =>
                let m' := {| keyArray := a1;
                             bytesMap := a2;
                             arrayCapacity := arrayCapacity m;
                             bytesInKeyArray := bytesInKeyArray m;
                             keySize := keySize m;
                             mapSize := mapSize m;
                             cursor := s2;
                             entries := entries m |} in
                (Ret OK,
                 ({| unsafe_set := true;
                     num_arrays_ := num_arrays_ this;
                     hash_relation_column_list_ := hash_relation_column_list_ this;
                     hash_table_ := a0;
                     null_index_set_ := null_index_set_ this;
                     null_index_list_ := null_index_list_ this;
                     arrayid_list_ := arrayid_list_ this |},
                  <[a0 := m']> heap))
            end
      | _, _, _, _ => (Undefined, st)
      end.

(** ** Build phase and call sequences *)

(** One call of the build phase: a hash column with the key column of one of
    the three overloads. *)
Inductive KeyBatch : Type :=
| NumberBatch (in_ : Int32Array) (original_key : NumericArray)
| StringBatch (in_ : Int32Array) (original_key : StringArray)
| PayloadBatch (in_ : Int32Array) (payloads : list UnsafeArray).

(** Overload resolution on the second argument. *)
Definition AppendKeyColumn_any (b : KeyBatch) : M Status :=
  match b with
  | NumberBatch in_ original_key => AppendKeyColumn in_ original_key
  | StringBatch in_ original_key => AppendKeyColumn_string in_ original_key
  | PayloadBatch in_ payloads => AppendKeyColumn_payloads in_ payloads
  end.

(** The build phase: the batches are appended one after the other; the first
    append that does not return OK ends it. *)
Fixpoint build (batches : list KeyBatch) : M Status :=
  match batches with
  | [] => ret OK
  | b :: rest => RETURN_NOT_OK (AppendKeyColumn_any b) (build rest)
  end.

(** A call on a relation. *)
Inductive Operation : Type :=
| Op_AppendKeyColumn (b : KeyBatch)
| Op_AppendKeyColumn_base (in_ : Int32Array)
| Op_InsertNull (array_id_ id_ : Z)
| Op_Get (v : Z) (payload : Key)
| Op_IfExists (v : Z) (payload : Key)
| Op_UnsafeGetHashTableObject (sizeof_unsafeHashMap : Z) (addrs sizes : list Z)
| Op_UnsafeSetHashTableObject (len : Z) (addrs sizes : list Z).

(** The state a call leaves. *)
Definition perform (op : Operation) (st : State) : State :=
  match op with
  | Op_AppendKeyColumn b => snd (AppendKeyColumn_any b st)
  | Op_AppendKeyColumn_base in_ => snd (AppendKeyColumn_base in_ st)
  | Op_InsertNull a i => snd (InsertNull a i st)
  | Op_Get v k => snd (Get v k st)
  | Op_IfExists v k => snd (IfExists v k st)
  | Op_UnsafeGetHashTableObject sz addrs sizes =>
      snd (UnsafeGetHashTableObject sz addrs sizes st)
  | Op_UnsafeSetHashTableObject len addrs sizes =>
      snd (UnsafeSetHashTableObject len addrs sizes st)
  end.

Definition perform_all (ops : list Operation) (st : State) : State :=
  fold_left (fun s op => perform op s) ops st.

Definition is_InsertNull (op : Operation) : bool :=
  match op with
  | Op_InsertNull _ _ => true
  | _ => false
  end.

(** A relation straight out of one of the three constructors. *)
Inductive constructed : State -> Prop :=
| constructed_ctx ctx heap :
    constructed (HashRelation_ctx ctx, heap)
| constructed_columns cols heap :
    constructed (HashRelation_columns cols, heap)
| constructed_new where_ ctx cols key_size heap :
    constructed (HashRelation_new where_ ctx cols key_size heap).

(** ** What a build is expected to store *)

(** The hash column of a batch. *)
Definition batch_hashes (b : KeyBatch) : Int32Array :=
  match b with
  | NumberBatch in_ _ | StringBatch in_ _ | PayloadBatch in_ _ => in_
  end.

(** The keys of a batch, row by row; the key of a row is the value stored in
    its slot, null or not.  A composite key is encoded for each row of the
    hash column. *)
Definition batch_keys (b : KeyBatch) : list Key :=
  match b with
  | NumberBatch _ original_key => map (fun s => NumKey (slot_raw s)) original_key
  | StringBatch _ original_key => map (fun s => StrKey (slot_raw s)) original_key
  | PayloadBatch in_ payloads =>
      map (fun i => RowKey (row_data (encode_row payloads i))) (seq 0 (List.length in_))
  end.

(** The (hash, key) pairs of a batch. *)
Definition batch_rows (b : KeyBatch) : list (Z * Key) :=
  zip (batch_hashes b) (batch_keys b).

(** The key column covers the hash column. *)
Definition covered (b : KeyBatch) : Prop :=
  (List.length (batch_hashes b) <= List.length (batch_keys b))%nat.

(** Whether each row of the batch is null. *)
Definition batch_nulls (b : KeyBatch) : list bool :=
  match b with
  | NumberBatch _ original_key => map (fun s => negb (slot_valid s)) original_key
  | StringBatch _ original_key => map (fun s => negb (slot_valid s)) original_key
  | PayloadBatch in_ _ => map (fun _ => false) in_
  end.

(** The key argument of row [i] as the overload evaluates it. *)
Definition batch_key_at (b : KeyBatch) (i : nat) : result Key :=
  match b with
  | NumberBatch _ original_key =>
      match GetView original_key i with
      | Ret x => Ret (NumKey x)
      | Throw w => Throw w
      | Abort => Abort
      | Undefined => Undefined
      end
  | StringBatch _ original_key =>
      match GetView original_key i with
      | Ret x => Ret (StrKey x)
      | Throw w => Throw w
      | Abort => Abort
      | Undefined => Undefined
      end
  | PayloadBatch _ payloads => Ret (RowKey (row_data (encode_row payloads i)))
  end.

(** The locator [Insert] gets for row [i] while the counter is [n]. *)
Definition locator (n : Z) (i : nat) : ArrayItemIndex :=
  mkArrayItemIndex (to_uint32 n) (to_uint32 (Z.of_nat i)).

(** Rows [i], [i+1], ... of a batch with their locators. *)
Fixpoint locate (n : Z) (i : nat) (rows : list (Z * Key))
  : list (Z * Key * ArrayItemIndex) :=
  match rows with
  | [] => []
  | r :: rest => (r, locator n i) :: locate n (S i) rest
  end.

(** All rows of a build that starts with the counter at [n]. *)
Fixpoint build_rows (n : Z) (batches : list KeyBatch) : list (Z * Key * ArrayItemIndex) :=
  match batches with
  | [] => []
  | b :: rest => locate n 0 (batch_rows b) ++ build_rows (to_uint64 (n + 1)) rest
  end.

(** The locators of the rows stored under hash [h] and key [k], in order. *)
Definition locators_of (k : Key) (h : Z) (rows : list (Z * Key * ArrayItemIndex))
  : list ArrayItemIndex :=
  map snd (filter (fun r => fst r = (h, k)) rows).

(** The locators of the rows whose key is [k], in order. *)
Definition locators_of_key (k : Key) (rows : list (Z * Key * ArrayItemIndex))
  : list ArrayItemIndex :=
  map snd (filter (fun r => snd (fst r) = k) rows).

(** Inserting located rows one after the other into a map, stopping at the
    first one that does not fit: the map reached and whether all went in. *)
Fixpoint run_rows (m : unsafeHashMap) (rows : list (Z * Key * ArrayItemIndex))
  : unsafeHashMap * bool :=
  match rows with
  | [] => (m, true)
  | (h, k, loc) :: rest =>
      match append m k h loc sizeof_ArrayItemIndex with
      | Some m' => run_rows m' rest
      | None => (m, false)
      end
  end.

(** The map the handle of the relation points to. *)
Definition table (st : State) : option unsafeHashMap :=
  if bool_decide (hash_table_ (fst st) = nullptr) then None
  else snd st !! hash_table_ (fst st).

(** Bytes the rows take in the bytes region when every key is new. *)
Definition rows_bytes (rows : list (Z * Key * ArrayItemIndex)) : Z :=
  fold_right (fun r acc => key_region_bytes (snd (fst r)) + sizeof_ArrayItemIndex + acc)
    0 rows.

(** ** The two-batch scenario *)

(** Batch 0 has the key column [5, 3, null], batch 1 has [3, 7].  The hash
    of a number is the number; [hn] is the hash the null row comes with and
    [x] the value the key buffer holds at the null slot. *)
Definition scenario_where : Allocation :=
  {| alloc_header := 4096; alloc_keyArray := 8192; alloc_bytesMap := 16384;
     alloc_stride := 12 |}.

Definition scenario_batches (hn x : Z) : list KeyBatch :=
  [ NumberBatch [5; 3; hn] [valid 5; valid 3; null x];
    NumberBatch [3; 7] [valid 3; valid 7] ].

Definition scenario_start : State := HashRelation_new scenario_where 0 [] 4 ∅.


(** ** A relation over a map with little room *)

(** A relation whose map has room for 12 bytes: one record fits, two do
    not. *)
Definition tight_start : State :=
  (set_hash_table HashRelation_init 4096,
   {[ 4096 := createUnsafeHashMap scenario_where 16 12 4 ]}).


(** ** Proof steps used more than once *)

(** Evaluates the filter of [locators_of] over an explicit list of rows. *)
Ltac filter_rows :=
  unfold locators_of;
  cbn [fst snd GetItemListByIndex set_arrayid_list arrayid_list_];
  rewrite !filter_cons, filter_nil; cbn [fst snd];
  repeat case_decide; try congruence.

(** Closes a goal from the membership [Hin] of a row in an explicit list
    that does not hold it. *)
Ltac row_absent Hin :=
  repeat (apply elem_of_cons in Hin as [Hin | Hin]; [congruence |]);
  inversion Hin.


(** ** Reading the column stores *)

(** [IsNull(int array_id, int id)] of both column specialisations,
    [array_vector_[array_id]->IsNull(id)]: the wrapper answers from the array
    it was made from.  Neither index is checked; a position that was never
    appended designates nothing. *)
Definition Column_IsNull (c : HashRelationColumn) (array_id_ id_ : Z) : result bool :=
  if (array_id_ <? 0) || (id_ <? 0) then Undefined
  else
    match array_vector_ c !! Z.to_nat array_id_ with
    | Some typed => IsNull (array_slots (cache_ typed)) (Z.to_nat id_)
    | None => Undefined
    end.

(** Whether a stored value is of the kind the specialisation returns: a
    number [T] for a number column, a [std::string] for a string column. *)
Definition value_fits (s : Specialization) (v : Value) : bool :=
  match s, v with
  | NumberColumn _, NumValue _ => true
  | StringLikeColumn _, StrValue _ => true
  | _, _ => false
  end.

(** [GetValue(int array_id, int id)] of both column specialisations:
    [GetView(id)], a [T], for numbers and [GetString(id)], a [std::string],
    for strings: the value stored in the slot whether it is null or not.  The
    wrapper reads the array as one of its own type; on an array of another
    type, or a slot that does not hold a value of the kind the specialisation
    returns, the read designates nothing. *)
Definition Column_GetValue (c : HashRelationColumn) (array_id_ id_ : Z) : result Value :=
  if (array_id_ <? 0) || (id_ <? 0) then Undefined
  else
    match array_vector_ c !! Z.to_nat array_id_ with
    | Some typed =>
        if compatible c (cache_ typed)
        then
          match GetView (array_slots (cache_ typed)) (Z.to_nat id_) with
          | Ret v => if value_fits (specialization c) v then Ret v else Undefined
          | Throw w => Throw w
          | Abort => Abort
          | Undefined => Undefined
          end
        else Undefined
    | None => Undefined
    end.

(** Several [AppendColumn] calls on one column, one array after the other;
    the column they leave. *)
Definition AppendColumn_each (wrap : DataType -> Array -> result TypedArray)
    (c : HashRelationColumn) (ins : list Array) : HashRelationColumn :=
  fold_left (fun c' in_ => snd (AppendColumn wrap c' in_)) ins c.

Definition set_column_list (this : HashRelation) (l : list HashRelationColumn)
  : HashRelation :=
  {| unsafe_set := unsafe_set this;
     num_arrays_ := num_arrays_ this;
     hash_relation_column_list_ := l;
     hash_table_ := hash_table_ this;
     null_index_set_ := null_index_set_ this;
     null_index_list_ := null_index_list_ this;
     arrayid_list_ := arrayid_list_ this |}.

(** [AppendPayloadColumn(idx, in)]:
    [hash_relation_column_list_[idx]->AppendColumn(in)].  The index is not
    checked.  The pointers of the list are taken to point to columns of their
    own, so the column at [idx] is the one that changes. *)
Definition AppendPayloadColumn (wrap : DataType -> Array -> result TypedArray)
    (idx : Z) (in_ : Array) : M Status :=
  fun st =>
    let '(this, heap) := st in
    if idx <? 0 then (Undefined, st)
    else
      match hash_relation_column_list_ this !! Z.to_nat idx with
      | None => (Undefined, st)
      | Some c =>
          let '(r, c') := AppendColumn wrap c in_ in
          (r, (set_column_list this
                 (<[Z.to_nat idx := c']> (hash_relation_column_list_ this)), heap))
      end.

(** [HashRelation::GetArrayVector(idx, out)]:
    [hash_relation_column_list_[idx]->GetArrayVector(out)]; the vector [out]
    goes out with the status. *)
Definition HashRelation_GetArrayVector (idx : Z) (out : list Array)
  : M (Status * list Array) :=
  fun st =>
    let '(this, heap) := st in
    if idx <? 0 then (Undefined, st)
    else
      match hash_relation_column_list_ this !! Z.to_nat idx with
      | None => (Undefined, st)
      | Some c =>
          match GetArrayVector c out with
          | (Ret s, out') => (Ret (s, out'), st)
          | (Throw w, _) => (Throw w, st)
          | (Abort, _) => (Abort, st)
          | (Undefined, _) => (Undefined, st)
          end
      end.

(** The locators given to [InsertNull] in a sequence of calls, in order. *)
Definition null_locators (ops : list Operation) : list ArrayItemIndex :=
  flat_map (fun op => match op with
                      | Op_InsertNull a i => [mkArrayItemIndex a i]
                      | _ => []
                      end) ops.

(** * Properties *)

(** ** The hash map *)

Lemma entry_matches_spec k h e :
  entry_matches k h e = true <-> entry_hash e = h /\ entry_key e = k.
Proof.
  unfold entry_matches.
  rewrite andb_true_iff, !bool_decide_eq_true. reflexivity.
Qed.

Lemma chain_record_same es k h p :
  exists e, find_entry (chain_record es k h p) k h = Some e /\
            entry_hash e = h /\ entry_key e = k /\
            entry_records e =
              match find_entry es k h with
              | Some e0 => entry_records e0
              | None => []
              end ++ [p].
Proof.
  induction es as [| e0 es IH]; simpl.
  - assert (Hm : entry_matches k h (mkEntry h k [p]) = true)
      by (apply entry_matches_spec; auto).
    rewrite Hm. eexists; repeat split; reflexivity.
  - destruct (entry_matches k h e0) eqn:E; simpl.
    + apply entry_matches_spec in E as [Eh Ek].
      assert (Hm : entry_matches k h
                (mkEntry (entry_hash e0) (entry_key e0) (entry_records e0 ++ [p])) = true)
        by (apply entry_matches_spec; auto).
      rewrite Hm. eexists; repeat split; auto.
    + rewrite E. exact IH.
Qed.

Lemma chain_record_other es k h p k' h' :
  (h, k) <> (h', k') ->
  find_entry (chain_record es k h p) k' h' = find_entry es k' h'.
Proof.
  intros Hne. induction es as [| e0 es IH]; simpl.
  - destruct (entry_matches k' h' (mkEntry h k [p])) eqn:E; [| reflexivity].
    apply entry_matches_spec in E as [Eh Ek]. simpl in *. congruence.
  - destruct (entry_matches k h e0) eqn:E; simpl.
    + apply entry_matches_spec in E as [Eh Ek].
      destruct (entry_matches k' h' e0) eqn:E'.
      * apply entry_matches_spec in E' as [Eh' Ek']. congruence.
      * destruct (entry_matches k' h' _) eqn:E''; [| reflexivity].
        apply entry_matches_spec in E'' as [Eh'' Ek'']. simpl in *. congruence.
    + rewrite IH. reflexivity.
Qed.

(** An insertion that succeeds adds its record at the end of the bucket of its
    own hash and key and leaves every other bucket alone. *)
Lemma append_bucket m k h p vlen m' k' h' :
  append m k h p vlen = Some m' ->
  bucket m' k' h' =
    bucket m k' h' ++ (if bool_decide ((h, k) = (h', k')) then [p] else []).
Proof.
  unfold append. destruct (_ <=? _); [| discriminate].
  intros [= <-]. unfold bucket; simpl.
  case_bool_decide as Heq.
  - injection Heq as <- <-.
    destruct (chain_record_same (entries m) k h p) as (e & -> & _ & _ & ->).
    reflexivity.
  - rewrite chain_record_other by assumption.
    rewrite app_nil_r. reflexivity.
Qed.

(** After an insertion the probed key is present iff it was before or it is
    the inserted one. *)
Lemma append_present m k h p vlen m' k' h' :
  append m k h p vlen = Some m' ->
  is_Some (find_entry (entries m') k' h') <->
  is_Some (find_entry (entries m) k' h') \/ (h, k) = (h', k').
Proof.
  unfold append. destruct (_ <=? _); [| discriminate].
  intros [= <-]; simpl.
  destruct (decide ((h, k) = (h', k'))) as [Heq | Hne].
  - injection Heq as <- <-.
    destruct (chain_record_same (entries m) k h p) as (e & -> & _).
    split; eauto.
  - rewrite chain_record_other by assumption.
    split; [auto | intros [? | ?]; [assumption | contradiction]].
Qed.

(** ** Rows inserted in sequence *)

Lemma run_rows_app m rows1 rows2 :
  run_rows m (rows1 ++ rows2) =
    match run_rows m rows1 with
    | (m1, true) => run_rows m1 rows2
    | (m1, false) => (m1, false)
    end.
Proof.
  revert m. induction rows1 as [| [[h k] loc] rows1 IH]; intros m; simpl.
  - reflexivity.
  - destruct (append m k h loc sizeof_ArrayItemIndex); [apply IH | reflexivity].
Qed.

(** When all rows went in, each bucket has grown by the locators of the rows
    with its hash and key, in order. *)
Lemma run_rows_bucket rows : forall m m' k h,
  run_rows m rows = (m', true) ->
  bucket m' k h = bucket m k h ++ locators_of k h rows.
Proof.
  induction rows as [| [[h0 k0] loc] rows IH]; intros m m' k h; simpl.
  - intros [= <-]. rewrite app_nil_r. reflexivity.
  - destruct (append m k0 h0 loc sizeof_ArrayItemIndex) as [m1 |] eqn:Ha; [| discriminate].
    intros Hrun. rewrite (IH _ _ k h Hrun).
    rewrite (append_bucket _ _ _ _ _ _ k h Ha).
    unfold locators_of. rewrite filter_cons. simpl.
    case_bool_decide as Heq; destruct (decide ((h0, k0) = (h, k))); try contradiction.
    + rewrite <- app_assoc. reflexivity.
    + rewrite app_nil_r. reflexivity.
Qed.

Lemma run_rows_present rows : forall m m' k h,
  run_rows m rows = (m', true) ->
  is_Some (find_entry (entries m') k h) <->
  is_Some (find_entry (entries m) k h) \/ exists loc, (h, k, loc) ∈ rows.
Proof.
  induction rows as [| [[h0 k0] loc] rows IH]; intros m m' k h; simpl.
  - intros [= <-]. split; [auto |].
    intros [? | [loc Hin]]; [assumption | inversion Hin].
  - destruct (append m k0 h0 loc sizeof_ArrayItemIndex) as [m1 |] eqn:Ha; [| discriminate].
    intros Hrun. rewrite (IH _ _ k h Hrun).
    rewrite (append_present _ _ _ _ _ _ k h Ha).
    split.
    + intros [[? | Heq] | [l Hin]].
      * left; assumption.
      * right. exists loc. injection Heq as <- <-. left.
      * right. exists l. right; assumption.
    + intros [? | [l Hin]].
      * left; left; assumption.
      * apply elem_of_cons in Hin as [Heq | Hin].
        -- left; right. congruence.
        -- right. exists l; assumption.
Qed.

(** Whatever the outcome, the map reached holds the rows that went in before
    the stop: a run that stops at row [j] is the full run of the first [j]
    rows, and row [j] is the one that did not fit. *)
Lemma run_rows_stop rows : forall m m',
  run_rows m rows = (m', false) ->
  exists j h k loc,
    rows !! j = Some (h, k, loc) /\
    run_rows m (take j rows) = (m', true) /\
    append m' k h loc sizeof_ArrayItemIndex = None.
Proof.
  induction rows as [| [[h0 k0] loc0] rows IH]; intros m m'; simpl.
  - discriminate.
  - destruct (append m k0 h0 loc0 sizeof_ArrayItemIndex) as [m1 |] eqn:Ha.
    + intros Hrun. destruct (IH _ _ Hrun) as (j & h & k & loc & Hj & Htake & Hfail).
      exists (S j), h, k, loc. simpl. rewrite Ha. auto.
    + intros [= <-]. exists 0%nat, h0, k0, loc0. simpl. auto.
Qed.

Lemma run_rows_fails_at rows j m mj h k loc :
  rows !! j = Some (h, k, loc) ->
  run_rows m (take j rows) = (mj, true) ->
  append mj k h loc sizeof_ArrayItemIndex = None ->
  run_rows m rows = (mj, false).
Proof.
  intros Hj Htake Hfail.
  rewrite <- (take_drop j rows) at 1.
  rewrite run_rows_app, Htake.
  rewrite (drop_S _ _ _ Hj). simpl. rewrite Hfail. reflexivity.
Qed.

(** ** The loop of [AppendKeyColumn] *)

Section Loop.
Variable key_at : nat -> result Key.
Variable this : HashRelation.
Hypothesis handle : hash_table_ this <> nullptr.

(** The loop over the hash column is the run of the located rows: it
    returns a capacity error where the run stops, OK when every row went in
    and the key column covers the hash column, and reads past the end of
    the key column otherwise. *)
Lemma insert_rows_spec : forall hashes i keys heap m,
  heap !! hash_table_ this = Some m ->
  (forall j k, keys !! j = Some k -> key_at (i + j) = Ret k) ->
  ((List.length keys < List.length hashes)%nat ->
   key_at (i + List.length keys) = Undefined) ->
  insert_rows key_at hashes i (this, heap) =
    match run_rows m (locate (num_arrays_ this) i (zip hashes keys)) with
    | (m', false) => (Ret CapacityError, (this, <[hash_table_ this := m']> heap))
    | (m', true) =>
        if decide (List.length hashes <= List.length keys)%nat
        then (Ret OK, (this, <[hash_table_ this := m']> heap))
        else (Undefined, (this, <[hash_table_ this := m']> heap))
    end.
Proof.
  induction hashes as [| v hashes IH]; intros i keys heap m Hm Hkeys Hend.
  - cbn [zip zip_with locate run_rows insert_rows].
    destruct (decide _) as [_ | Hn]; [| exfalso; apply Hn; simpl; lia].
    rewrite insert_id by assumption. reflexivity.
  - destruct keys as [| k keys].
    + cbn [zip zip_with locate run_rows insert_rows].
      destruct (decide _) as [Hle | _]; [simpl in Hle; lia |].
      unfold RETURN_NOT_OK, bind, eval.
      simpl in Hend. rewrite Nat.add_0_r in Hend. rewrite Hend by lia.
      rewrite insert_id by assumption. reflexivity.
    + cbn [zip zip_with locate run_rows insert_rows].
      unfold RETURN_NOT_OK at 1, bind at 1 2, eval.
      specialize (Hkeys 0%nat k eq_refl) as Hk0.
      rewrite Nat.add_0_r in Hk0. rewrite Hk0.
      unfold Insert, fst. rewrite bool_decide_eq_false_2 by assumption.
      rewrite Hm. unfold locator.
      destruct (append m k v _ sizeof_ArrayItemIndex) as [m1 |] eqn:Ha.
      * rewrite (IH (S i) keys (<[hash_table_ this := m1]> heap) m1).
        -- destruct (run_rows m1 _) as [m' [|]].
           ++ rewrite insert_insert_eq.
              destruct (decide (List.length hashes <= List.length keys)%nat);
                destruct (decide _) as [Hle | Hn]; try reflexivity;
                simpl in *; exfalso; lia.
           ++ rewrite insert_insert_eq. reflexivity.
        -- apply lookup_insert_eq.
        -- intros j k' Hj. replace (S i + j)%nat with (i + S j)%nat by lia.
           apply Hkeys. exact Hj.
        -- intros Hlt. replace (S i + List.length keys)%nat
             with (i + List.length (k :: keys))%nat by (simpl; lia).
           apply Hend. simpl. lia.
      * unfold ret. rewrite insert_id by assumption. reflexivity.
Qed.
End Loop.

(** ** One batch *)

Lemma AppendKeyColumn_any_unfold b :
  AppendKeyColumn_any b = append_batch (batch_key_at b) (batch_hashes b).
Proof. destruct b; reflexivity. Qed.

Lemma batch_key_at_keys b j k :
  batch_keys b !! j = Some k -> batch_key_at b j = Ret k.
Proof.
  destruct b as [in_ key | in_ key | in_ payloads]; simpl; unfold GetView.
  - unfold NumericArray in key. rewrite list_lookup_fmap.
    destruct (key !! j); simpl; congruence.
  - unfold StringArray in key. rewrite list_lookup_fmap.
    destruct (key !! j); simpl; congruence.
  - rewrite list_lookup_fmap. intros H.
    destruct (seq 0 (List.length in_) !! j) as [i |] eqn:E; simpl in H; [| discriminate].
    apply lookup_seq in E as [-> _]. simpl in H. congruence.
Qed.

Lemma batch_key_at_end b :
  (List.length (batch_keys b) < List.length (batch_hashes b))%nat ->
  batch_key_at b (List.length (batch_keys b)) = Undefined.
Proof.
  destruct b as [in_ key | in_ key | in_ payloads]; simpl; unfold GetView.
  - unfold NumericArray in key. rewrite length_map. intros _.
    rewrite (lookup_ge_None_2 key) by lia. reflexivity.
  - unfold StringArray in key. rewrite length_map. intros _.
    rewrite (lookup_ge_None_2 key) by lia. reflexivity.
  - rewrite length_map, length_seq. lia.
Qed.

(** What one call of [AppendKeyColumn] does on a relation whose handle points
    to the map [m], for each of the three overloads. *)
Lemma AppendKeyColumn_any_spec b this heap m :
  hash_table_ this <> nullptr ->
  heap !! hash_table_ this = Some m ->
  AppendKeyColumn_any b (this, heap) =
    match run_rows m (locate (num_arrays_ this) 0 (batch_rows b)) with
    | (m', false) => (Ret CapacityError, (this, <[hash_table_ this := m']> heap))
    | (m', true) =>
        if decide (List.length (batch_hashes b) <= List.length (batch_keys b))%nat
        then (Ret OK, (set_num_arrays this (to_uint64 (num_arrays_ this + 1)),
                       <[hash_table_ this := m']> heap))
        else (Undefined, (this, <[hash_table_ this := m']> heap))
    end.
Proof.
  intros Hp Hm. rewrite AppendKeyColumn_any_unfold.
  unfold append_batch, RETURN_NOT_OK, bind.
  rewrite (insert_rows_spec (batch_key_at b) this Hp (batch_hashes b) 0
             (batch_keys b) heap m Hm).
  - unfold batch_rows.
    destruct (run_rows m _) as [m' [|]]; [| reflexivity].
    destruct (decide _); reflexivity.
  - intros j k Hj. simpl. apply batch_key_at_keys. exact Hj.
  - intros Hlt. simpl. apply batch_key_at_end. exact Hlt.
Qed.

(** ** The build phase *)

Lemma set_num_arrays_same this : set_num_arrays this (num_arrays_ this) = this.
Proof. destruct this; reflexivity. Qed.

(** A build that returns OK has put every row of every batch into the map, in
    order, and has touched nothing but the counter and the map. *)
Lemma build_spec batches : forall this heap m st',
  hash_table_ this <> nullptr ->
  heap !! hash_table_ this = Some m ->
  build batches (this, heap) = (Ret OK, st') ->
  exists m' n',
    st' = (set_num_arrays this n', <[hash_table_ this := m']> heap) /\
    run_rows m (build_rows (num_arrays_ this) batches) = (m', true).
Proof.
  induction batches as [| b batches IH]; intros this heap m st' Hp Hm; simpl.
  - unfold ret. intros [= <-]. exists m, (num_arrays_ this).
    rewrite set_num_arrays_same, insert_id by assumption. split; reflexivity.
  - unfold RETURN_NOT_OK, bind.
    rewrite (AppendKeyColumn_any_spec b this heap m Hp Hm).
    destruct (run_rows m (locate _ 0 _)) as [m1 [|]] eqn:Hrun; [| discriminate].
    destruct (decide _); [| discriminate].
    intros Hbuild.
    apply (IH _ _ m1) in Hbuild as (m' & n' & -> & Hrest).
    + exists m', n'. simpl. rewrite insert_insert_eq. split; [reflexivity |].
      rewrite run_rows_app, Hrun. exact Hrest.
    + exact Hp.
    + simpl. apply lookup_insert_eq.
Qed.

(** ** Locators are distinct *)

Lemma to_uint32_small z : 0 <= z < 2 ^ 32 -> to_uint32 z = z.
Proof. intros H. unfold to_uint32. apply Z.mod_small. exact H. Qed.

Lemma to_uint64_small z : 0 <= z < 2 ^ 64 -> to_uint64 z = z.
Proof. intros H. unfold to_uint64. apply Z.mod_small. exact H. Qed.

Lemma elem_of_locate rows : forall n i r,
  r ∈ locate n i rows ->
  exists j, (i <= j < i + List.length rows)%nat /\ rows !! (j - i)%nat = Some (fst r) /\
            snd r = locator n j.
Proof.
  induction rows as [| r0 rows IH]; intros n i r; simpl.
  - intros H. inversion H.
  - intros H. apply elem_of_cons in H as [-> | H].
    + exists i. simpl. rewrite Nat.sub_diag. repeat split; lia.
    + apply IH in H as (j & Hj & Hl & Hs).
      exists j. split; [lia |]. split; [| exact Hs].
      replace (j - i)%nat with (S (j - S i)) by lia. exact Hl.
Qed.

Lemma locate_NoDup rows : forall n i,
  Z.of_nat (i + List.length rows) <= 2 ^ 32 ->
  NoDup (map snd (locate n i rows)).
Proof.
  induction rows as [| r0 rows IH]; intros n i Hb; simpl.
  - constructor.
  - apply NoDup_cons. split.
    + intros Hin.
      apply list_elem_of_fmap in Hin as (r & Hr & Hin).
      apply elem_of_locate in Hin as (j & Hj & _ & Hs).
      rewrite Hs in Hr. unfold locator in Hr. injection Hr as Hid.
      simpl in Hb.
      rewrite !to_uint32_small in Hid by lia. lia.
    + apply IH. simpl in Hb. lia.
Qed.

Lemma build_rows_array_id batches : forall n r,
  0 <= n -> n + Z.of_nat (List.length batches) <= 2 ^ 32 ->
  r ∈ build_rows n batches ->
  n <= array_id (snd r) < n + Z.of_nat (List.length batches).
Proof.
  induction batches as [| b batches IH]; intros n r Hn Hb; simpl.
  - intros H. inversion H.
  - intros H. simpl in Hb. apply elem_of_app in H as [H | H].
    + apply elem_of_locate in H as (j & _ & _ & ->). simpl.
      rewrite to_uint32_small by lia. lia.
    + rewrite to_uint64_small in H by lia.
      apply IH in H; lia.
Qed.

Lemma build_rows_NoDup batches : forall n,
  0 <= n -> n + Z.of_nat (List.length batches) <= 2 ^ 32 ->
  Forall (fun b => Z.of_nat (List.length (batch_rows b)) <= 2 ^ 32) batches ->
  NoDup (map snd (build_rows n batches)).
Proof.
  induction batches as [| b batches IH]; intros n Hn Hb Hrows; simpl.
  - constructor.
  - simpl in Hb. inversion Hrows as [| ? ? Hrow Hrest]; subst.
    rewrite map_app. apply NoDup_app. split; [| split].
    + apply locate_NoDup. simpl. exact Hrow.
    + intros loc Hin1 Hin2.
      apply list_elem_of_fmap in Hin1 as (r1 & -> & Hin1).
      apply list_elem_of_fmap in Hin2 as (r2 & Heq & Hin2).
      apply elem_of_locate in Hin1 as (j & _ & _ & Hs).
      rewrite to_uint64_small in Hin2 by lia.
      apply build_rows_array_id in Hin2; [| lia | lia].
      rewrite <- Heq, Hs in Hin2. simpl in Hin2.
      rewrite to_uint32_small in Hin2 by lia. lia.
    + rewrite to_uint64_small by lia. apply IH; [lia | lia | exact Hrest].
Qed.

Lemma locators_of_key_hash h k rows :
  (forall h' loc, (h', k, loc) ∈ rows -> h' = h) ->
  locators_of k h rows = locators_of_key k rows.
Proof.
  unfold locators_of, locators_of_key.
  induction rows as [| [[h0 k0] loc0] rows IH]; intros Hh; [reflexivity |].
  rewrite !filter_cons. simpl.
  assert (IH' := IH (fun h' loc H => Hh h' loc (list_elem_of_further _ _ _ H))).
  destruct (decide ((h0, k0) = (h, k))) as [Heq | Hne];
    destruct (decide (k0 = k)) as [Hk | Hk].
  - simpl. f_equal. exact IH'.
  - congruence.
  - subst k0. assert (h0 = h) by (apply (Hh h0 loc0); left). congruence.
  - exact IH'.
Qed.

Lemma elem_of_locators_of k h rows loc :
  loc ∈ locators_of k h rows <-> (h, k, loc) ∈ rows.
Proof.
  unfold locators_of. rewrite list_elem_of_fmap. split.
  - intros ([[h0 k0] loc0] & -> & Hin).
    apply list_elem_of_filter in Hin as [Heq Hin]. simpl in *. congruence.
  - intros Hin. exists (h, k, loc). split; [reflexivity |].
    apply list_elem_of_filter. split; [reflexivity | exact Hin].
Qed.

Lemma locators_of_NoDup k h rows :
  NoDup (map snd rows) -> NoDup (locators_of k h rows).
Proof.
  intros Hnd. unfold locators_of.
  eapply sublist_NoDup; [exact Hnd |].
  apply fmap_sublist. apply sublist_filter.
Qed.

(** ** Probing *)

Lemma set_arrayid_list_same this : set_arrayid_list this (arrayid_list_ this) = this.
Proof. destruct this; reflexivity. Qed.

Lemma Get_found this heap m v k e :
  hash_table_ this <> nullptr ->
  heap !! hash_table_ this = Some m ->
  find_entry (entries m) k v = Some e ->
  Get v k (this, heap) = (Ret 0, (set_arrayid_list this (entry_records e), heap)).
Proof.
  intros Hp Hm He. unfold Get.
  rewrite bool_decide_eq_false_2 by assumption.
  rewrite Hm. unfold safeLookup_out. rewrite He. reflexivity.
Qed.

Lemma Get_missing this heap m v k :
  hash_table_ this <> nullptr ->
  heap !! hash_table_ this = Some m ->
  find_entry (entries m) k v = None ->
  Get v k (this, heap) = (Ret (-1), (this, heap)).
Proof.
  intros Hp Hm He. unfold Get.
  rewrite bool_decide_eq_false_2 by assumption.
  rewrite Hm. unfold safeLookup_out. rewrite He. simpl.
  rewrite set_arrayid_list_same. reflexivity.
Qed.

(** After a build on a new relation, [Get] finds a hash and key iff some row
    was appended with them, and then caches the locators of exactly those
    rows, in the order of insertion. *)
Lemma build_then_Get where_ ctx cols key_size heap batches st' :
  alloc_header where_ <> nullptr ->
  build batches (HashRelation_new where_ ctx cols key_size heap) = (Ret OK, st') ->
  forall h k,
    ((exists loc, (h, k, loc) ∈ build_rows 0 batches) ->
     Get h k st' =
       (Ret 0, (set_arrayid_list (fst st') (locators_of k h (build_rows 0 batches)),
                snd st'))) /\
    ((forall loc, (h, k, loc) ∉ build_rows 0 batches) ->
     Get h k st' = (Ret (-1), st')).
Proof.
  intros Hp Hbuild h k. unfold HashRelation_new in Hbuild.
  eapply build_spec in Hbuild as (m' & n' & -> & Hrun);
    [| exact Hp | simpl; apply lookup_insert_eq].
  simpl in Hrun.
  pose proof (run_rows_bucket _ _ _ k h Hrun) as Hb.
  pose proof (run_rows_present _ _ _ k h Hrun) as Hpres.
  unfold bucket in Hb. simpl in Hb, Hpres.
  split.
  - intros Hin.
    destruct (find_entry (entries m') k h) as [e |] eqn:He.
    + erewrite Get_found; [| exact Hp | simpl; apply lookup_insert_eq | exact He].
      simpl. rewrite Hb. reflexivity.
    + exfalso. apply (is_Some_None (A := Entry)). apply Hpres. right. exact Hin.
  - intros Hout.
    destruct (find_entry (entries m') k h) as [e |] eqn:He.
    + exfalso. assert (Hs : is_Some (Some e)) by eauto.
      apply Hpres in Hs as [[e0 He0] | [loc Hin]]; [discriminate |].
      exact (Hout loc Hin).
    + erewrite Get_missing; [reflexivity | exact Hp | simpl; apply lookup_insert_eq | exact He].
Qed.

(** ** Capacity *)

Lemma key_region_bytes_nonneg k : 0 <= key_region_bytes k.
Proof. destruct k; simpl; lia. Qed.

Lemma rows_bytes_nonneg rows : 0 <= rows_bytes rows.
Proof.
  induction rows as [| r rows IH]; simpl; [lia |].
  pose proof (key_region_bytes_nonneg (snd (fst r))).
  unfold sizeof_ArrayItemIndex in *. lia.
Qed.

(** Rows that fit within [mapSize] all go in. *)
Lemma run_rows_fits rows : forall m,
  cursor m + rows_bytes rows <= mapSize m ->
  exists m', run_rows m rows = (m', true).
Proof.
  induction rows as [| [[h k] loc] rows IH]; intros m Hfit; simpl in *.
  - eauto.
  - pose proof (rows_bytes_nonneg rows) as Hrest.
    pose proof (key_region_bytes_nonneg k) as Hk.
    unfold append.
    assert (Hneed : record_bytes m k h sizeof_ArrayItemIndex
                    <= key_region_bytes k + sizeof_ArrayItemIndex).
    { unfold record_bytes. destruct (find_entry _ _ _); lia. }
    destruct (Z.leb_spec (cursor m + record_bytes m k h sizeof_ArrayItemIndex) (mapSize m)) as [_ | Hgt];
      [| lia].
    apply IH. simpl. lia.
Qed.

(** The converse of [build_spec]: when the rows all go into the map and every
    key column covers its hash column, the build returns OK. *)
Lemma build_runs batches : forall this heap m m',
  hash_table_ this <> nullptr ->
  heap !! hash_table_ this = Some m ->
  Forall covered batches ->
  run_rows m (build_rows (num_arrays_ this) batches) = (m', true) ->
  exists n',
    build batches (this, heap) =
      (Ret OK, (set_num_arrays this n', <[hash_table_ this := m']> heap)).
Proof.
  induction batches as [| b batches IH]; intros this heap m m' Hp Hm Hcov; simpl.
  - intros [= <-]. exists (num_arrays_ this). unfold ret.
    rewrite set_num_arrays_same, insert_id by assumption. reflexivity.
  - inversion Hcov as [| ? ? Hb Hrest]; subst.
    rewrite run_rows_app.
    destruct (run_rows m (locate _ 0 _)) as [m1 [|]] eqn:Hrun; [| discriminate].
    intros Hrun2.
    unfold RETURN_NOT_OK, bind.
    rewrite (AppendKeyColumn_any_spec b this heap m Hp Hm), Hrun.
    rewrite decide_True by exact Hb.
    destruct (IH (set_num_arrays this (to_uint64 (num_arrays_ this + 1)))
                (<[hash_table_ this := m1]> heap) m1 m') as [n' Hn'].
    + exact Hp.
    + simpl. apply lookup_insert_eq.
    + exact Hrest.
    + exact Hrun2.
    + exists n'. rewrite Hn'. simpl. rewrite insert_insert_eq. reflexivity.
Qed.

(** A build whose batches are covered and whose rows fit returns OK. *)
Lemma build_total batches this heap m :
  hash_table_ this <> nullptr ->
  heap !! hash_table_ this = Some m ->
  Forall covered batches ->
  cursor m + rows_bytes (build_rows (num_arrays_ this) batches) <= mapSize m ->
  exists st', build batches (this, heap) = (Ret OK, st').
Proof.
  intros Hp Hm Hcov Hfit.
  destruct (run_rows_fits _ _ Hfit) as [m' Hrun].
  destruct (build_runs batches this heap m m' Hp Hm Hcov Hrun) as [n' Hn'].
  eauto.
Qed.

Lemma build_covered batches : forall this heap m st',
  hash_table_ this <> nullptr ->
  heap !! hash_table_ this = Some m ->
  build batches (this, heap) = (Ret OK, st') ->
  Forall covered batches.
Proof.
  induction batches as [| b batches IH]; intros this heap m st' Hp Hm; simpl.
  - constructor.
  - unfold RETURN_NOT_OK, bind.
    rewrite (AppendKeyColumn_any_spec b this heap m Hp Hm).
    destruct (run_rows m (locate _ 0 _)) as [m1 [|]] eqn:Hrun; [| discriminate].
    destruct (decide _) as [Hb |]; [| discriminate].
    intros Hbuild. constructor; [exact Hb |].
    eapply (IH _ _ m1); [| | exact Hbuild]; [exact Hp | simpl; apply lookup_insert_eq].
Qed.

(** ** The scenario *)

Lemma scenario_rows hn x :
  build_rows 0 (scenario_batches hn x) =
    [ (5, NumKey 5, mkArrayItemIndex 0 0); (3, NumKey 3, mkArrayItemIndex 0 1);
      (hn, NumKey x, mkArrayItemIndex 0 2); (3, NumKey 3, mkArrayItemIndex 1 0);
      (7, NumKey 7, mkArrayItemIndex 1 1) ].
Proof. reflexivity. Qed.

(** When the null row of the scenario was not appended with the hash and the
    stored value of one of the probed numbers, the four probes give what the
    scenario expects. *)
Lemma scenario_probes hn x :
  (hn, x) <> (3, 3) -> (hn, x) <> (5, 5) -> (hn, x) <> (7, 7) -> (hn, x) <> (9, 9) ->
  exists st',
    build (scenario_batches hn x) scenario_start = (Ret OK, st') /\
    (fst (Get 3 (NumKey 3) st') = Ret 0 /\
     GetItemListByIndex (fst (snd (Get 3 (NumKey 3) st'))) 0
       = [mkArrayItemIndex 0 1; mkArrayItemIndex 1 0]) /\
    (fst (Get 5 (NumKey 5) st') = Ret 0 /\
     GetItemListByIndex (fst (snd (Get 5 (NumKey 5) st'))) 0 = [mkArrayItemIndex 0 0]) /\
    (fst (Get 7 (NumKey 7) st') = Ret 0 /\
     GetItemListByIndex (fst (snd (Get 7 (NumKey 7) st'))) 0 = [mkArrayItemIndex 1 1]) /\
    fst (Get 9 (NumKey 9) st') = Ret (-1).
Proof.
  intros H3 H5 H7 H9.
  destruct (build_total (scenario_batches hn x) (fst scenario_start) (snd scenario_start)
              (createUnsafeHashMap scenario_where (1024 * 1024) (256 * 1024 * 1024) 4))
    as [st' Hbuild].
  - simpl. discriminate.
  - simpl. apply lookup_insert_eq.
  - repeat constructor; unfold covered; simpl; lia.
  - simpl num_arrays_. rewrite scenario_rows. vm_compute. discriminate.
  - exists st'.
    assert (Hb : build (scenario_batches hn x) (HashRelation_new scenario_where 0 [] 4 ∅)
                 = (Ret OK, st')) by exact Hbuild.
    assert (Hp : alloc_header scenario_where <> nullptr) by (simpl; discriminate).
    pose proof (build_then_Get _ _ _ _ _ _ _ Hp Hb) as HG.
    rewrite scenario_rows in HG.
    split; [exact Hbuild |].
    destruct (HG 3 (NumKey 3)) as [Hf3 _].
    destruct (HG 5 (NumKey 5)) as [Hf5 _].
    destruct (HG 7 (NumKey 7)) as [Hf7 _].
    destruct (HG 9 (NumKey 9)) as [_ Hm9].
    rewrite Hf3 by (eexists; apply list_elem_of_further, list_elem_of_here).
    rewrite Hf5 by (eexists; apply list_elem_of_here).
    rewrite Hf7 by (eexists; do 4 apply list_elem_of_further; apply list_elem_of_here).
    rewrite Hm9 by (intros loc Hin; row_absent Hin).
    repeat split; filter_rows; reflexivity.
Qed.

(** ** C1 *)

(** C1, as the code has it.  After a build of at most 2^32 batches of at most
    2^32 rows each, every one appended with OK to a new relation: [Get] with
    the hash and the stored key value of any appended row, null or not,
    returns 0 and leaves in the cached list returned by [GetItemListByIndex]
    exactly the locators of the rows appended with that hash and that stored
    key value, in insertion order, each once; when every row that stores the
    key was appended with the probed hash, these are the rows whose stored
    key value equals the probed key.  [Get] with a hash and key no row was
    appended with returns -1 and leaves the cached list as it was.  A null
    row is stored under the value its slot holds.  In the scenario
    [5, 3, null] then [3, 7] the probes give [(0,1), (1,0)] for 3, [(0,0)]
    for 5, [(1,1)] for 7 and not found for 9 when the null row was not
    appended with the hash and the stored value of 3, 5, 7 or 9. *)
Theorem Get_after_build_returns_rows_with_key :
  (forall where_ ctx cols key_size heap batches st',
      alloc_header where_ <> nullptr ->
      build batches (HashRelation_new where_ ctx cols key_size heap) = (Ret OK, st') ->
      Z.of_nat (List.length batches) <= 2 ^ 32 ->
      Forall (fun b => Z.of_nat (List.length (batch_rows b)) <= 2 ^ 32) batches ->
      Forall covered batches /\
      forall h k i,
        ((exists loc, (h, k, loc) ∈ build_rows 0 batches) ->
         fst (Get h k st') = Ret 0 /\
         GetItemListByIndex (fst (snd (Get h k st'))) i
           = locators_of k h (build_rows 0 batches) /\
         (forall loc, (h, k, loc) ∈ build_rows 0 batches ->
            count_occ ArrayItemIndex_eq_dec
              (GetItemListByIndex (fst (snd (Get h k st'))) i) loc = 1%nat) /\
         ((forall h' loc, (h', k, loc) ∈ build_rows 0 batches -> h' = h) ->
          GetItemListByIndex (fst (snd (Get h k st'))) i
            = locators_of_key k (build_rows 0 batches))) /\
        ((forall loc, (h, k, loc) ∉ build_rows 0 batches) ->
         fst (Get h k st') = Ret (-1) /\
         GetItemListByIndex (fst (snd (Get h k st'))) i
           = GetItemListByIndex (fst st') i)) /\
  (forall hn x,
     (hn, x) <> (3, 3) -> (hn, x) <> (5, 5) -> (hn, x) <> (7, 7) -> (hn, x) <> (9, 9) ->
     exists st',
       build (scenario_batches hn x) scenario_start = (Ret OK, st') /\
       (fst (Get 3 (NumKey 3) st') = Ret 0 /\
        GetItemListByIndex (fst (snd (Get 3 (NumKey 3) st'))) 0
          = [mkArrayItemIndex 0 1; mkArrayItemIndex 1 0]) /\
       (fst (Get 5 (NumKey 5) st') = Ret 0 /\
        GetItemListByIndex (fst (snd (Get 5 (NumKey 5) st'))) 0 = [mkArrayItemIndex 0 0]) /\
       (fst (Get 7 (NumKey 7) st') = Ret 0 /\
        GetItemListByIndex (fst (snd (Get 7 (NumKey 7) st'))) 0 = [mkArrayItemIndex 1 1]) /\
       fst (Get 9 (NumKey 9) st') = Ret (-1)).
Proof.
  split; [| exact scenario_probes].
  intros where_ ctx cols key_size heap batches st' Hp Hbuild Hlen Hrows.
  split.
  { unfold HashRelation_new in Hbuild.
    eapply build_covered; [| | exact Hbuild]; [exact Hp | simpl; apply lookup_insert_eq]. }
  intros h k i.
  destruct (build_then_Get _ _ _ _ _ _ _ Hp Hbuild h k) as [Hfound Hmiss].
  split.
  - intros Hin. rewrite (Hfound Hin).
    cbn [fst snd GetItemListByIndex set_arrayid_list arrayid_list_].
    split; [reflexivity |]. split; [reflexivity |]. split.
    + intros loc Hloc.
      apply NoDup_count_occ'.
      * apply NoDup_ListNoDup, locators_of_NoDup.
        apply build_rows_NoDup; [lia | lia | exact Hrows].
      * apply list_elem_of_In. apply elem_of_locators_of. exact Hloc.
    + intros Hh. apply locators_of_key_hash. exact Hh.
  - intros Hout. rewrite (Hmiss Hout). split; reflexivity.
Qed.

(** The scenario with hash 0 and value 0 at the null row, run through the
    theorem. *)
Lemma Get_after_build_witness :
  fst (Get 3 (NumKey 3) (snd (build (scenario_batches 0 0) scenario_start))) = Ret 0 /\
  GetItemListByIndex
    (fst (snd (Get 3 (NumKey 3) (snd (build (scenario_batches 0 0) scenario_start))))) 0
    = [mkArrayItemIndex 0 1; mkArrayItemIndex 1 0].
Proof.
  destruct Get_after_build_returns_rows_with_key as [Hgen _].
  destruct (Hgen scenario_where 0 [] 4 ∅ (scenario_batches 0 0)
              (snd (build (scenario_batches 0 0) scenario_start))) as [_ Hk].
  - vm_compute. discriminate.
  - vm_compute. reflexivity.
  - vm_compute. discriminate.
  - repeat constructor; vm_compute; discriminate.
  - destruct (Hk 3 (NumKey 3) 0) as [Hfound _].
    destruct Hfound as (Hr & Hl & _).
    + exists (mkArrayItemIndex 0 1). vm_compute.
      apply list_elem_of_further, list_elem_of_here.
    + split; [exact Hr |].
      etransitivity; [exact Hl | vm_compute; reflexivity].
Defined.

(** C1 fails as stated: when the null row of batch 0 is appended with the
    hash of 3 and its slot holds 3, the null row (0,2) comes back from [Get]
    of 3, between (0,1) and (1,0). *)
Lemma Get_returns_null_row :
  fst (build (scenario_batches 3 3) scenario_start) = Ret OK /\
  batch_nulls (NumberBatch [5; 3; 3] [valid 5; valid 3; null 3]) = [false; false; true] /\
  fst (Get 3 (NumKey 3) (snd (build (scenario_batches 3 3) scenario_start))) = Ret 0 /\
  GetItemListByIndex
    (fst (snd (Get 3 (NumKey 3) (snd (build (scenario_batches 3 3) scenario_start))))) 0
    = [mkArrayItemIndex 0 1; mkArrayItemIndex 0 2; mkArrayItemIndex 1 0] /\
  GetItemListByIndex
    (fst (snd (Get 3 (NumKey 3) (snd (build (scenario_batches 3 3) scenario_start))))) 0
    <> [mkArrayItemIndex 0 1; mkArrayItemIndex 1 0].
Proof.
  vm_compute. repeat split; discriminate.
Qed.

(** ** What the calls leave of the object *)

(** [Insert] changes nothing of the object itself. *)
Lemma Insert_this v k a i this heap :
  fst (snd (Insert v k a i (this, heap))) = this.
Proof.
  unfold Insert. destruct (bool_decide _); [reflexivity |].
  destruct (heap !! hash_table_ this); [| reflexivity].
  destruct (append _ _ _ _ _); reflexivity.
Qed.

Lemma insert_rows_this key_at hashes : forall i this heap,
  fst (snd (insert_rows key_at hashes i (this, heap))) = this.
Proof.
  induction hashes as [| v hashes IH]; intros i this heap; simpl.
  - reflexivity.
  - unfold RETURN_NOT_OK, bind, eval.
    destruct (key_at i) as [k | w | |]; try reflexivity.
    pose proof (Insert_this v k (to_uint32 (num_arrays_ (fst (this, heap))))
                  (to_uint32 (Z.of_nat i)) this heap) as Hthis.
    destruct (Insert v k _ _ (this, heap)) as [[s | w | |] [this1 heap1]];
      simpl in Hthis; subst this1; try reflexivity.
    destruct s; try reflexivity. apply IH.
Qed.

(** [AppendKeyColumn], in each overload, leaves the object as it was or with
    the counter stepped, and steps it exactly when it returns OK. *)
Lemma AppendKeyColumn_any_this b this heap :
  let r := AppendKeyColumn_any b (this, heap) in
  (fst r = Ret OK /\
   fst (snd r) = set_num_arrays this (to_uint64 (num_arrays_ this + 1))) \/
  (fst r <> Ret OK /\ fst (snd r) = this).
Proof.
  rewrite AppendKeyColumn_any_unfold.
  unfold append_batch, RETURN_NOT_OK, bind.
  pose proof (insert_rows_this (batch_key_at b) (batch_hashes b) 0 this heap) as Hthis.
  destruct (insert_rows _ _ 0 (this, heap)) as [[s | w | |] [this1 heap1]];
    simpl in Hthis; subst this1; simpl.
  - destruct s; simpl; [left; split; reflexivity | right | right | right];
      (split; [discriminate | reflexivity]).
  - right. split; [discriminate | reflexivity].
  - right. split; [discriminate | reflexivity].
  - right. split; [discriminate | reflexivity].
Qed.

Lemma elem_of_locate_lookup rows : forall n i j h k,
  rows !! j = Some (h, k) -> (h, k, locator n (i + j)) ∈ locate n i rows.
Proof.
  induction rows as [| r rows IH]; intros n i j h k; simpl.
  - rewrite lookup_nil. discriminate.
  - destruct j as [| j]; simpl.
    + intros [= ->]. rewrite Nat.add_0_r. left.
    + intros Hj. right. replace (i + S j)%nat with (S i + j)%nat by lia.
      apply IH. exact Hj.
Qed.

(** ** C2 *)

(** C2, as the code has it.  [AppendKeyColumn], in each of its overloads,
    never looks at the validity of a row: it leaves the flag
    [null_index_set_] and the list [null_index_list_] as they were, and when
    it returns OK the locator of every row of the batch, null or not, is in
    the hash map under the hash of the row and the value its slot stores.
    [InsertNull], which [AppendKeyColumn] does not call, sets the flag, adds
    the locator to the null list and leaves the hash map alone. *)
Theorem AppendKeyColumn_inserts_null_rows_into_map :
  (forall b st,
      null_index_set_ (fst (snd (AppendKeyColumn_any b st))) = null_index_set_ (fst st) /\
      null_index_list_ (fst (snd (AppendKeyColumn_any b st))) = null_index_list_ (fst st)) /\
  (forall b this heap m st',
      hash_table_ this <> nullptr ->
      heap !! hash_table_ this = Some m ->
      AppendKeyColumn_any b (this, heap) = (Ret OK, st') ->
      exists m',
        table st' = Some m' /\
        forall j h k null_,
          batch_rows b !! j = Some (h, k) ->
          batch_nulls b !! j = Some null_ ->
          locator (num_arrays_ this) j ∈ bucket m' k h) /\
  (forall a i st,
      fst (InsertNull a i st) = Ret OK /\
      null_index_set_ (fst (snd (InsertNull a i st))) = true /\
      null_index_list_ (fst (snd (InsertNull a i st))) =
        (if null_index_set_ (fst st)
         then null_index_list_ (fst st) ++ [mkArrayItemIndex a i]
         else [mkArrayItemIndex a i]) /\
      snd (snd (InsertNull a i st)) = snd st).
Proof.
  split; [| split].
  - intros b [this heap].
    destruct (AppendKeyColumn_any_this b this heap) as [[_ ->] | [_ ->]];
      split; reflexivity.
  - intros b this heap m st' Hp Hm.
    rewrite (AppendKeyColumn_any_spec b this heap m Hp Hm).
    destruct (run_rows m _) as [m' [|]] eqn:Hrun; [| discriminate].
    destruct (decide _); [| discriminate].
    intros [= <-]. exists m'. split.
    + unfold table. simpl. rewrite bool_decide_eq_false_2 by exact Hp.
      apply lookup_insert_eq.
    + intros j h k null_ Hj _.
      rewrite (run_rows_bucket _ _ _ k h Hrun).
      apply elem_of_app. right. apply elem_of_locators_of.
      apply (elem_of_locate_lookup _ _ 0 j). exact Hj.
  - intros a i [this heap]. simpl.
    destruct (null_index_set_ this); repeat split.
Qed.

(** A batch whose only row is null, appended to the relation of the
    scenario, run through the theorem. *)
Lemma AppendKeyColumn_inserts_null_rows_witness :
  exists m',
    table (snd (AppendKeyColumn [0] [null 0] scenario_start)) = Some m' /\
    mkArrayItemIndex 0 0 ∈ bucket m' (NumKey 0) 0.
Proof.
  destruct AppendKeyColumn_inserts_null_rows_into_map as (_ & Hins & _).
  destruct (Hins (NumberBatch [0] [null 0]) (fst scenario_start) (snd scenario_start)
              (createUnsafeHashMap scenario_where (1024 * 1024) (256 * 1024 * 1024) 4)
              (snd (AppendKeyColumn [0] [null 0] scenario_start)))
    as (m' & Ht & Hb).
  - vm_compute. discriminate.
  - vm_compute. reflexivity.
  - vm_compute. reflexivity.
  - exists m'. split; [exact Ht |].
    apply (Hb 0%nat 0 (NumKey 0) true); reflexivity.
Defined.

(** C2 fails as stated: a batch whose only row is null is appended with OK,
    the flag stays unset, the null list stays empty, and the row is found in
    the hash map under the value of its slot. *)
Lemma AppendKeyColumn_does_not_route_nulls :
  batch_nulls (NumberBatch [0] [null 0]) = [true] /\
  fst (AppendKeyColumn [0] [null 0] scenario_start) = Ret OK /\
  null_index_set_ (fst (snd (AppendKeyColumn [0] [null 0] scenario_start))) = false /\
  null_index_list_ (fst (snd (AppendKeyColumn [0] [null 0] scenario_start))) = [] /\
  GetNull (fst (snd (AppendKeyColumn [0] [null 0] scenario_start))) = HASH_NEW_KEY /\
  Get 0 (NumKey 0) (snd (AppendKeyColumn [0] [null 0] scenario_start)) =
    (Ret 0,
     (set_arrayid_list (fst (snd (AppendKeyColumn [0] [null 0] scenario_start)))
        [mkArrayItemIndex 0 0],
      snd (snd (AppendKeyColumn [0] [null 0] scenario_start)))).
Proof.
  vm_compute. repeat split.
Qed.

(** ** C3 *)

Lemma perform_null_index_set op st :
  null_index_set_ (fst (perform op st)) = null_index_set_ (fst st) || is_InsertNull op.
Proof.
  destruct st as [this heap].
  destruct op as [b | in_ | a i | v k | v k | sz addrs sizes | len addrs sizes];
    simpl; rewrite ?orb_false_r, ?orb_true_r; try reflexivity.
  - destruct (AppendKeyColumn_any_this b this heap) as [[_ ->] | [_ ->]]; reflexivity.
  - unfold Get. destruct (bool_decide _); [reflexivity |].
    destruct (heap !! hash_table_ this); [| reflexivity].
    destruct (safeLookup_out _ _ _ _) as [res out].
    destruct (res =? -1); reflexivity.
  - unfold IfExists. destruct (bool_decide _); [reflexivity |].
    destruct (heap !! hash_table_ this); reflexivity.
  - unfold UnsafeGetHashTableObject. destruct (bool_decide _); [reflexivity |].
    destruct (heap !! hash_table_ this); [| reflexivity].
    destruct (_ && _); reflexivity.
  - unfold UnsafeSetHashTableObject. destruct (negb _); [reflexivity |].
    destruct (addrs !! 0%nat) as [a0 |]; [| reflexivity].
    destruct (addrs !! 1%nat); [| reflexivity].
    destruct (addrs !! 2%nat); [| reflexivity].
    destruct (sizes !! 2%nat); [| reflexivity].
    destruct (bool_decide _); [reflexivity |].
    destruct (heap !! a0); reflexivity.
Qed.

Lemma perform_all_null_index_set ops : forall st,
  null_index_set_ (fst (perform_all ops st)) =
    null_index_set_ (fst st) || existsb is_InsertNull ops.
Proof.
  unfold perform_all.
  induction ops as [| op ops IH]; intros st; simpl.
  - rewrite orb_false_r. reflexivity.
  - rewrite IH, perform_null_index_set, orb_assoc. reflexivity.
Qed.

Lemma constructed_null_index_set st : constructed st -> null_index_set_ (fst st) = false.
Proof. intros []; reflexivity. Qed.

(** C3.  On a relation made by any of the constructors, after any sequence of
    calls, [GetNull] returns [HASH_NEW_KEY] if and only if [InsertNull] was
    never called, and 0 otherwise; the sentinel is not 0. *)
Theorem GetNull_new_key_iff_InsertNull_never_called :
  forall st ops,
    constructed st ->
    (GetNull (fst (perform_all ops st)) = HASH_NEW_KEY <->
     existsb is_InsertNull ops = false) /\
    (GetNull (fst (perform_all ops st)) = 0 <->
     existsb is_InsertNull ops = true) /\
    HASH_NEW_KEY <> 0.
Proof.
  intros st ops Hc. unfold GetNull.
  rewrite perform_all_null_index_set, (constructed_null_index_set st Hc). simpl.
  unfold HASH_NEW_KEY.
  destruct (existsb is_InsertNull ops); repeat split; intros; try reflexivity; discriminate.
Qed.

(** The scenario followed by two probes and one [InsertNull]. *)
Lemma GetNull_new_key_witness :
  GetNull (fst (perform_all
                  [Op_AppendKeyColumn (NumberBatch [5; 3; 0] [valid 5; valid 3; null 0]);
                   Op_Get 3 (NumKey 3); Op_IfExists 9 (NumKey 9)] scenario_start))
    = HASH_NEW_KEY /\
  GetNull (fst (perform_all
                  [Op_AppendKeyColumn (NumberBatch [5; 3; 0] [valid 5; valid 3; null 0]);
                   Op_InsertNull 0 2; Op_Get 3 (NumKey 3)] scenario_start))
    = 0.
Proof.
  split.
  - apply (GetNull_new_key_iff_InsertNull_never_called scenario_start);
      [apply constructed_new | reflexivity].
  - apply (GetNull_new_key_iff_InsertNull_never_called scenario_start);
      [apply constructed_new | reflexivity].
Defined.

(** ** C4 *)

Lemma lookup_locate rows : forall n i j h k,
  rows !! j = Some (h, k) -> locate n i rows !! j = Some (h, k, locator n (i + j)).
Proof.
  induction rows as [| r rows IH]; intros n i j h k; simpl.
  - rewrite lookup_nil. discriminate.
  - destruct j as [| j]; simpl.
    + intros [= ->]. rewrite Nat.add_0_r. reflexivity.
    + intros Hj. replace (i + S j)%nat with (S i + j)%nat by lia.
      apply IH. exact Hj.
Qed.

(** Records are only ever added: what a bucket holds stays through a run. *)
Lemma run_rows_keeps rows : forall m m' ok k h p,
  run_rows m rows = (m', ok) -> p ∈ bucket m k h -> p ∈ bucket m' k h.
Proof.
  induction rows as [| [[h0 k0] loc0] rows IH]; intros m m' ok k h p; simpl.
  - intros [= <- _]. auto.
  - destruct (append m k0 h0 loc0 sizeof_ArrayItemIndex) as [m1 |] eqn:Ha.
    + intros Hrun Hin. apply (IH _ _ _ _ _ _ Hrun).
      rewrite (append_bucket _ _ _ _ _ _ k h Ha).
      apply elem_of_app. left. exact Hin.
    + intros [= <- _]. auto.
Qed.

(** C4.  On a relation whose handle points to a map, for each overload of
    [AppendKeyColumn]: when the rows before row [j] go into the map and the
    insertion of row [j] fails, the call returns CapacityError at once, in
    the state reached after those insertions, so the object and its counter
    are as before the call, the locators of the rows before [j] are in the
    map and the map has lost nothing; CapacityError arises in no other way;
    and when the call returns OK every row went in and the counter has been
    stepped once. *)
Theorem AppendKeyColumn_capacity_error_keeps_inserted_rows :
  forall b this heap m,
    hash_table_ this <> nullptr ->
    heap !! hash_table_ this = Some m ->
    (forall j h k loc mj,
        locate (num_arrays_ this) 0 (batch_rows b) !! j = Some (h, k, loc) ->
        run_rows m (take j (locate (num_arrays_ this) 0 (batch_rows b))) = (mj, true) ->
        append mj k h loc sizeof_ArrayItemIndex = None ->
        AppendKeyColumn_any b (this, heap) =
          (Ret CapacityError, (this, <[hash_table_ this := mj]> heap)) /\
        (forall i hi ki,
            (i < j)%nat -> batch_rows b !! i = Some (hi, ki) ->
            locator (num_arrays_ this) i ∈ bucket mj ki hi) /\
        (forall k' h' p, p ∈ bucket m k' h' -> p ∈ bucket mj k' h')) /\
    (forall st',
        AppendKeyColumn_any b (this, heap) = (Ret CapacityError, st') ->
        num_arrays_ (fst st') = num_arrays_ this /\
        exists j h k loc mj,
          locate (num_arrays_ this) 0 (batch_rows b) !! j = Some (h, k, loc) /\
          run_rows m (take j (locate (num_arrays_ this) 0 (batch_rows b))) = (mj, true) /\
          append mj k h loc sizeof_ArrayItemIndex = None /\
          st' = (this, <[hash_table_ this := mj]> heap)) /\
    (forall st',
        AppendKeyColumn_any b (this, heap) = (Ret OK, st') ->
        num_arrays_ (fst st') = to_uint64 (num_arrays_ this + 1) /\
        covered b /\
        exists m',
          run_rows m (locate (num_arrays_ this) 0 (batch_rows b)) = (m', true) /\
          snd st' = <[hash_table_ this := m']> heap).
Proof.
  intros b this heap m Hp Hm.
  rewrite (AppendKeyColumn_any_spec b this heap m Hp Hm).
  split; [| split].
  - intros j h k loc mj Hj Htake Hfail.
    rewrite (run_rows_fails_at _ _ _ _ _ _ _ Hj Htake Hfail).
    split; [reflexivity |]. split.
    + intros i hi ki Hi Hrow.
      rewrite (run_rows_bucket _ _ _ ki hi Htake).
      apply elem_of_app. right. apply elem_of_locators_of.
      apply (list_elem_of_lookup_2 _ i).
      rewrite lookup_take_lt by exact Hi.
      apply (lookup_locate _ _ 0 i). exact Hrow.
    + intros k' h' p. apply (run_rows_keeps _ _ _ _ _ _ _ Htake).
  - intros st'.
    destruct (run_rows m _) as [m' [|]] eqn:Hrun.
    + destruct (decide _); discriminate.
    + intros [= <-]. split; [reflexivity |].
      destruct (run_rows_stop _ _ _ Hrun) as (j & h & k & loc & Hj & Htake & Hfail).
      exists j, h, k, loc, m'. auto.
  - intros st'.
    destruct (run_rows m _) as [m' [|]] eqn:Hrun; [| discriminate].
    destruct (decide _) as [Hc |]; [| discriminate].
    intros [= <-]. simpl. split; [reflexivity |]. split; [exact Hc |].
    exists m'. auto.
Qed.

(** Two rows appended to a map with room for one record: row 0 goes in, row 1
    does not. *)
Lemma AppendKeyColumn_capacity_error_witness :
  fst (AppendKeyColumn [5; 3] [valid 5; valid 3] tight_start) = Ret CapacityError /\
  num_arrays_ (fst (snd (AppendKeyColumn [5; 3] [valid 5; valid 3] tight_start))) = 0 /\
  exists mj,
    table (snd (AppendKeyColumn [5; 3] [valid 5; valid 3] tight_start)) = Some mj /\
    mkArrayItemIndex 0 0 ∈ bucket mj (NumKey 5) 5.
Proof.
  destruct (AppendKeyColumn_capacity_error_keeps_inserted_rows
              (NumberBatch [5; 3] [valid 5; valid 3])
              (fst tight_start) (snd tight_start)
              (createUnsafeHashMap scenario_where 16 12 4)) as (Hfail & _ & _).
  - vm_compute. discriminate.
  - vm_compute. reflexivity.
  - destruct (Hfail 1%nat 3 (NumKey 3) (mkArrayItemIndex 0 1)
                (mkUnsafeHashMap 8192 16384 16 12 4 12 8
                   [mkEntry 5 (NumKey 5) [mkArrayItemIndex 0 0]]))
      as (Hcall & Hrows & _).
    + vm_compute. reflexivity.
    + vm_compute. reflexivity.
    + vm_compute. reflexivity.
    + change (AppendKeyColumn [5; 3] [valid 5; valid 3] tight_start)
        with (AppendKeyColumn_any (NumberBatch [5; 3] [valid 5; valid 3])
                (fst tight_start, snd tight_start)).
      rewrite Hcall. split; [reflexivity |]. split; [reflexivity |].
      eexists. split; [vm_compute; reflexivity |].
      apply (Hrows 0%nat 5 (NumKey 5)); [lia | reflexivity].
Defined.

(** ** C5 *)

Lemma batch_rows_first b h k :
  batch_rows b !! 0%nat = Some (h, k) ->
  exists rest, batch_hashes b = h :: rest /\ batch_key_at b 0 = Ret k.
Proof.
  unfold batch_rows. intros H0.
  destruct (batch_hashes b) as [| v rest] eqn:Eh; [discriminate |].
  destruct (batch_keys b) as [| k0 keys] eqn:Ek; [discriminate |].
  simpl in H0. injection H0 as -> ->.
  exists rest. split; [reflexivity |].
  apply batch_key_at_keys. rewrite Ek. reflexivity.
Qed.

(** C5.  While [hash_table_] is null: [Get] and [IfExists] throw
    [std::runtime_error] for a key of any of the three kinds, [Insert] dies
    in its assertion for a key of any kind, and so does [AppendKeyColumn], in
    each overload, on a batch that has a first row.  None of them returns a
    status, and the state is left as it was. *)
Theorem null_handle_fails_fatally :
  forall this heap,
    hash_table_ this = nullptr ->
    (forall v k,
        Get v k (this, heap) =
          (Throw "HashRelation Get failed, hash_table is null.", (this, heap)) /\
        is_fatal (fst (Get v k (this, heap))) = true) /\
    (forall v k,
        IfExists v k (this, heap) =
          (Throw "HashRelation Get failed, hash_table is null.", (this, heap)) /\
        is_fatal (fst (IfExists v k (this, heap))) = true) /\
    (forall v k a i,
        Insert v k a i (this, heap) = (Abort, (this, heap)) /\
        is_fatal (fst (Insert v k a i (this, heap))) = true) /\
    (forall v row a i,
        Insert_row v row a i (this, heap) = (Abort, (this, heap)) /\
        is_fatal (fst (Insert_row v row a i (this, heap))) = true) /\
    (forall b h k,
        batch_rows b !! 0%nat = Some (h, k) ->
        AppendKeyColumn_any b (this, heap) = (Abort, (this, heap)) /\
        is_fatal (fst (AppendKeyColumn_any b (this, heap))) = true).
Proof.
  intros this heap Hnull.
  assert (HI : forall v k a i, Insert v k a i (this, heap) = (Abort, (this, heap))).
  { intros. unfold Insert. rewrite bool_decide_eq_true_2 by exact Hnull. reflexivity. }
  repeat split.
  - unfold Get. rewrite bool_decide_eq_true_2 by exact Hnull. reflexivity.
  - unfold Get. rewrite bool_decide_eq_true_2 by exact Hnull. reflexivity.
  - unfold IfExists. rewrite bool_decide_eq_true_2 by exact Hnull. reflexivity.
  - unfold IfExists. rewrite bool_decide_eq_true_2 by exact Hnull. reflexivity.
  - apply HI.
  - rewrite HI. reflexivity.
  - apply HI.
  - unfold Insert_row. rewrite HI. reflexivity.
  - destruct (batch_rows_first _ _ _ H) as (rest & Hh & Hk).
    rewrite AppendKeyColumn_any_unfold, Hh.
    unfold append_batch, RETURN_NOT_OK, bind. simpl.
    unfold RETURN_NOT_OK, bind, eval. rewrite Hk, HI. reflexivity.
  - destruct (batch_rows_first _ _ _ H) as (rest & Hh & Hk).
    rewrite AppendKeyColumn_any_unfold, Hh.
    unfold append_batch, RETURN_NOT_OK, bind. simpl.
    unfold RETURN_NOT_OK, bind, eval. rewrite Hk, HI. reflexivity.
Qed.

(** A relation made with [HashRelation(ctx)] has no map. *)
Lemma null_handle_fails_witness :
  fst (Get 3 (NumKey 3) (HashRelation_ctx 0, ∅)) =
    Throw "HashRelation Get failed, hash_table is null." /\
  fst (IfExists 3 (StrKey "abc") (HashRelation_ctx 0, ∅)) =
    Throw "HashRelation Get failed, hash_table is null." /\
  fst (AppendKeyColumn [3] [valid 3] (HashRelation_ctx 0, ∅)) = Abort.
Proof.
  destruct (null_handle_fails_fatally (HashRelation_ctx 0) ∅ eq_refl)
    as (HG & HE & _ & _ & HA).
  split; [| split].
  - rewrite (proj1 (HG 3 (NumKey 3))). reflexivity.
  - rewrite (proj1 (HE 3 (StrKey "abc"))). reflexivity.
  - change (AppendKeyColumn [3] [valid 3]) with (AppendKeyColumn_any (NumberBatch [3] [valid 3])).
    rewrite (proj1 (HA (NumberBatch [3] [valid 3]) 3 (NumKey 3) eq_refl)). reflexivity.
Defined.

(** A batch without rows never reaches [Insert]: the call returns OK and
    steps the counter even though there is no map. *)
Remark AppendKeyColumn_empty_batch_without_map this heap :
  AppendKeyColumn [] [] (this, heap) =
    (Ret OK, (set_num_arrays this (to_uint64 (num_arrays_ this + 1)), heap)).
Proof. reflexivity. Qed.

(** ** C6 *)

Lemma UnsafeSetHashTableObject_OK len addrs sizes st :
  fst (UnsafeSetHashTableObject len addrs sizes st) = Ret OK ->
  len = 3 /\ unsafe_set (fst (snd (UnsafeSetHashTableObject len addrs sizes st))) = true.
Proof.
  destruct st as [this heap]. unfold UnsafeSetHashTableObject.
  destruct (Z.eqb_spec len 3) as [-> | Hne]; simpl; [| discriminate].
  destruct (addrs !! 0%nat) as [a0 |]; [| discriminate].
  destruct (addrs !! 1%nat); [| discriminate].
  destruct (addrs !! 2%nat); [| discriminate].
  destruct (sizes !! 2%nat); [| discriminate].
  destruct (bool_decide _); [discriminate |].
  destruct (heap !! a0); [| discriminate].
  simpl. auto.
Qed.

Lemma perform_unsafe_set op st :
  unsafe_set (fst st) = true -> unsafe_set (fst (perform op st)) = true.
Proof.
  destruct st as [this heap]. simpl. intros Hset.
  destruct op as [b | in_ | a i | v k | v k | sz addrs sizes | len addrs sizes]; simpl;
    try exact Hset.
  - destruct (AppendKeyColumn_any_this b this heap) as [[_ ->] | [_ ->]]; exact Hset.
  - unfold Get. destruct (bool_decide _); [exact Hset |].
    destruct (heap !! hash_table_ this); [| exact Hset].
    destruct (safeLookup_out _ _ _ _) as [res out].
    destruct (res =? -1); exact Hset.
  - unfold IfExists. destruct (bool_decide _); [exact Hset |].
    destruct (heap !! hash_table_ this); exact Hset.
  - unfold UnsafeGetHashTableObject. destruct (bool_decide _); [exact Hset |].
    destruct (heap !! hash_table_ this); [| exact Hset].
    destruct (_ && _); exact Hset.
  - unfold UnsafeSetHashTableObject. destruct (negb _); [exact Hset |].
    destruct (addrs !! 0%nat) as [a0 |]; [| exact Hset].
    destruct (addrs !! 1%nat); [| exact Hset].
    destruct (addrs !! 2%nat); [| exact Hset].
    destruct (sizes !! 2%nat); [| exact Hset].
    destruct (bool_decide _); [exact Hset |].
    destruct (heap !! a0); [reflexivity | exact Hset].
Qed.

Lemma perform_all_unsafe_set ops : forall st,
  unsafe_set (fst st) = true -> unsafe_set (fst (perform_all ops st)) = true.
Proof.
  unfold perform_all.
  induction ops as [| op ops IH]; intros st Hset; simpl.
  - exact Hset.
  - apply IH. apply perform_unsafe_set. exact Hset.
Qed.

(** C6.  [UnsafeSetHashTableObject] with three descriptors whose first
    address is not null and points to a map returns OK, with [unsafe_set]
    set and the handle at that address; and whenever it returns, it has set
    [unsafe_set].  The destructor calls [destroyHashMap], on the handle, if
    and only if the handle is not null and [unsafe_set] is false, and makes
    no other call.  So the destructor of a relation that imported its table,
    whatever was called on it in between, calls nothing and leaves the heap
    as it is. *)
Theorem destructor_frees_only_owned_map :
  (forall addrs sizes this heap a0 a1 a2 s2 m,
      addrs !! 0%nat = Some a0 ->
      addrs !! 1%nat = Some a1 ->
      addrs !! 2%nat = Some a2 ->
      sizes !! 2%nat = Some s2 ->
      a0 <> nullptr ->
      heap !! a0 = Some m ->
      fst (UnsafeSetHashTableObject 3 addrs sizes (this, heap)) = Ret OK /\
      unsafe_set (fst (snd (UnsafeSetHashTableObject 3 addrs sizes (this, heap)))) = true /\
      hash_table_ (fst (snd (UnsafeSetHashTableObject 3 addrs sizes (this, heap)))) = a0 /\
      forall ops,
        HashRelation_destroy
          (perform_all ops (snd (UnsafeSetHashTableObject 3 addrs sizes (this, heap)))) =
        ([], perform_all ops (snd (UnsafeSetHashTableObject 3 addrs sizes (this, heap))))) /\
  (forall len addrs sizes st,
      fst (UnsafeSetHashTableObject len addrs sizes st) = Ret OK ->
      unsafe_set (fst (snd (UnsafeSetHashTableObject len addrs sizes st))) = true) /\
  (forall this heap,
      (Call_destroyHashMap (hash_table_ this) ∈ fst (HashRelation_destroy (this, heap)) <->
       hash_table_ this <> nullptr /\ unsafe_set this = false) /\
      (forall c, c ∈ fst (HashRelation_destroy (this, heap)) ->
                 c = Call_destroyHashMap (hash_table_ this))) /\
  (forall len addrs sizes st ops,
      fst (UnsafeSetHashTableObject len addrs sizes st) = Ret OK ->
      HashRelation_destroy
        (perform_all ops (snd (UnsafeSetHashTableObject len addrs sizes st))) =
      ([], perform_all ops (snd (UnsafeSetHashTableObject len addrs sizes st)))).
Proof.
  assert (Hkeep : forall len addrs sizes st ops,
             fst (UnsafeSetHashTableObject len addrs sizes st) = Ret OK ->
             HashRelation_destroy
               (perform_all ops (snd (UnsafeSetHashTableObject len addrs sizes st))) =
             ([], perform_all ops (snd (UnsafeSetHashTableObject len addrs sizes st)))).
  { intros len addrs sizes st ops HOK.
    apply UnsafeSetHashTableObject_OK in HOK as [_ Hset].
    apply (perform_all_unsafe_set ops) in Hset.
    destruct (perform_all ops _) as [this heap]. simpl in Hset.
    unfold HashRelation_destroy. rewrite Hset, andb_false_r. reflexivity. }
  split; [| split; [| split]].
  - intros addrs sizes this heap a0 a1 a2 s2 m H0 H1 H2 Hs Hp Hm.
    assert (HOK : fst (UnsafeSetHashTableObject 3 addrs sizes (this, heap)) = Ret OK).
    { unfold UnsafeSetHashTableObject. cbn [Z.eqb Pos.eqb negb].
      rewrite H0, H1, H2, Hs. rewrite bool_decide_eq_false_2 by exact Hp.
      rewrite Hm. reflexivity. }
    split; [exact HOK |]. split; [| split].
    + apply (UnsafeSetHashTableObject_OK _ _ _ _ HOK).
    + unfold UnsafeSetHashTableObject. cbn [Z.eqb Pos.eqb negb].
      rewrite H0, H1, H2, Hs. rewrite bool_decide_eq_false_2 by exact Hp.
      rewrite Hm. reflexivity.
    + intros ops. apply Hkeep. exact HOK.
  - intros len addrs sizes st HOK.
    apply (UnsafeSetHashTableObject_OK _ _ _ _ HOK).
  - intros this heap. unfold HashRelation_destroy.
    destruct (decide (hash_table_ this = nullptr)) as [Hn | Hn].
    + rewrite bool_decide_eq_true_2 by exact Hn. simpl. split.
      * split; [intros H; inversion H | intros [H _]; contradiction].
      * intros c H. inversion H.
    + rewrite bool_decide_eq_false_2 by exact Hn. simpl.
      destruct (unsafe_set this); simpl; split.
      * split; [intros H; inversion H | intros [_ H]; discriminate].
      * intros c H. inversion H.
      * split; [auto | intros _; left].
      * intros c H. apply list_elem_of_singleton in H. exact H.
  - exact Hkeep.
Qed.

(** A second relation attaches to the map of the scenario and is destroyed:
    the import returns OK with [unsafe_set] set, the destructor calls
    nothing, and the map is still on the heap. *)
Lemma destructor_frees_only_owned_map_witness :
  fst (UnsafeSetHashTableObject 3 [4096; 8192; 16384] [40; 192; 0]
         (HashRelation_ctx 0, snd scenario_start)) = Ret OK /\
  unsafe_set (fst (snd (UnsafeSetHashTableObject 3 [4096; 8192; 16384] [40; 192; 0]
                          (HashRelation_ctx 0, snd scenario_start)))) = true /\
  hash_table_ (fst (snd (UnsafeSetHashTableObject 3 [4096; 8192; 16384] [40; 192; 0]
                           (HashRelation_ctx 0, snd scenario_start)))) = 4096 /\
  fst (HashRelation_destroy
         (snd (UnsafeSetHashTableObject 3 [4096; 8192; 16384] [40; 192; 0]
                 (HashRelation_ctx 0, snd scenario_start)))) = [] /\
  is_Some (snd (snd (HashRelation_destroy
         (snd (UnsafeSetHashTableObject 3 [4096; 8192; 16384] [40; 192; 0]
                 (HashRelation_ctx 0, snd scenario_start))))) !! 4096).
Proof.
  destruct destructor_frees_only_owned_map as (Himport & _ & _ & _).
  destruct (Himport [4096; 8192; 16384] [40; 192; 0] (HashRelation_ctx 0)
              (snd scenario_start) 4096 8192 16384 0
              (createUnsafeHashMap scenario_where (1024 * 1024) (256 * 1024 * 1024) 4))
    as (HOK & Hset & Hhandle & Hnone).
  - reflexivity.
  - reflexivity.
  - reflexivity.
  - reflexivity.
  - vm_compute. discriminate.
  - vm_compute. reflexivity.
  - pose proof (Hnone []) as Hd.
    unfold perform_all in Hd. cbn [fold_left] in Hd.
    split; [exact HOK |]. split; [exact Hset |]. split; [exact Hhandle |].
    rewrite Hd. split; [reflexivity |]. vm_compute. eauto.
Defined.

(** ** C7 *)

Lemma to_int_small z : - 2 ^ 31 <= z < 2 ^ 31 -> to_int z = z.
Proof.
  intros H. unfold to_int. rewrite Z.mod_small by lia. lia.
Qed.

Lemma write_three {A : Type} (l : list A) (a b c : A) :
  (3 <= List.length l)%nat ->
  <[2%nat := c]> (<[1%nat := b]> (<[0%nat := a]> l)) = [a; b; c] ++ drop 3 l.
Proof.
  destruct l as [| x [| y [| z l]]]; simpl; try lia. reflexivity.
Qed.




(** ** C8 *)

(** C8.  [IfExists], for a key of any of the three kinds and in any state,
    leaves the object and the heap as they were, so the list returned by
    [GetItemListByIndex] is the same before and after; with a handle that
    points to a map it returns what the lookup returns.  [Get] on a key that
    is present replaces the cached list with the records of the key. *)
Theorem IfExists_leaves_state :
  (forall v k st i,
      snd (IfExists v k st) = st /\
      GetItemListByIndex (fst (snd (IfExists v k st))) i = GetItemListByIndex (fst st) i) /\
  (forall v k this heap m,
      hash_table_ this <> nullptr ->
      heap !! hash_table_ this = Some m ->
      fst (IfExists v k (this, heap)) = Ret (safeLookup m k v)) /\
  (forall v k this heap m e i,
      hash_table_ this <> nullptr ->
      heap !! hash_table_ this = Some m ->
      find_entry (entries m) k v = Some e ->
      fst (IfExists v k (this, heap)) = Ret 0 /\
      GetItemListByIndex (fst (snd (Get v k (this, heap)))) i = entry_records e).
Proof.
  split; [| split].
  - intros v k [this heap] i.
    assert (H : snd (IfExists v k (this, heap)) = (this, heap)).
    { unfold IfExists. destruct (bool_decide _); [reflexivity |].
      destruct (heap !! hash_table_ this); reflexivity. }
    rewrite H. split; reflexivity.
  - intros v k this heap m Hp Hm. unfold IfExists.
    rewrite bool_decide_eq_false_2 by exact Hp. rewrite Hm. reflexivity.
  - intros v k this heap m e i Hp Hm He. split.
    + unfold IfExists. rewrite bool_decide_eq_false_2 by exact Hp.
      rewrite Hm. unfold safeLookup. rewrite He. reflexivity.
    + rewrite (Get_found this heap m v k e Hp Hm He). reflexivity.
Qed.

(** On the relation of the scenario after batch 0: [IfExists] of 3 leaves the
    cached list empty, [Get] of 3 fills it. *)
Lemma IfExists_leaves_state_witness :
  GetItemListByIndex
    (fst (snd (IfExists 3 (NumKey 3)
                 (snd (AppendKeyColumn [5; 3; 0] [valid 5; valid 3; null 0] scenario_start))))) 0
    = [] /\
  GetItemListByIndex
    (fst (snd (Get 3 (NumKey 3)
                 (snd (AppendKeyColumn [5; 3; 0] [valid 5; valid 3; null 0] scenario_start))))) 0
    = [mkArrayItemIndex 0 1].
Proof.
  destruct IfExists_leaves_state as (Hsame & _ & Hget).
  split.
  - rewrite (proj2 (Hsame 3 (NumKey 3) _ 0)). vm_compute. reflexivity.
  - set (st := snd (AppendKeyColumn [5; 3; 0] [valid 5; valid 3; null 0] scenario_start)).
    assert (Hst : st = (fst st, snd st)) by (destruct st; reflexivity).
    rewrite Hst.
    refine (proj2 (Hget 3 (NumKey 3) (fst st) (snd st)
              (mkUnsafeHashMap 8192 16384 1048576 12 4 268435456 24
                 [mkEntry 5 (NumKey 5) [mkArrayItemIndex 0 0];
                  mkEntry 3 (NumKey 3) [mkArrayItemIndex 0 1];
                  mkEntry 0 (NumKey 0) [mkArrayItemIndex 0 2]])
              (mkEntry 3 (NumKey 3) [mkArrayItemIndex 0 1]) 0 _ _ _)).
    + vm_compute. discriminate.
    + vm_compute. reflexivity.
    + vm_compute. reflexivity.
Defined.

(** ** C9 *)

(** C9, as the code has it.  [AppendColumn] of both specialisations makes no
    check of the type of the array: for every array, compatible or not, when
    the constructor of the wrapper returns, the call returns OK with the
    wrapped array added at the end of the store; and a status it returns is
    always OK. *)
Theorem AppendColumn_returns_only_OK :
  forall wrap c in_,
    (forall typed_in,
        wrap (wrapper_type (specialization c)) in_ = Ret typed_in ->
        AppendColumn wrap c in_ =
          (Ret OK, {| specialization := specialization c;
                      array_vector_ := array_vector_ c ++ [typed_in] |})) /\
    (forall s, fst (AppendColumn wrap c in_) = Ret s -> s = OK).
Proof.
  intros wrap c in_. unfold AppendColumn. split.
  - intros typed_in ->. reflexivity.
  - intros s. destruct (wrap _ in_); simpl; congruence.
Qed.

(** An array of strings given to a column of 32-bit integers. *)
Lemma AppendColumn_returns_only_OK_witness :
  AppendColumn wrap_unchecked
    {| specialization := NumberColumn Int32Type; array_vector_ := [] |}
    {| array_type := StringType; array_slots := [valid (StrValue "a")] |} =
  (Ret OK,
   {| specialization := NumberColumn Int32Type;
      array_vector_ :=
        [ {| cache_ := {| array_type := StringType;
                          array_slots := [valid (StrValue "a")] |} |} ] |}).
Proof.
  apply (proj1 (AppendColumn_returns_only_OK wrap_unchecked
                  {| specialization := NumberColumn Int32Type; array_vector_ := [] |}
                  {| array_type := StringType; array_slots := [valid (StrValue "a")] |})).
  reflexivity.
Defined.

(** C9 fails as stated: an array of strings is not compatible with a column
    of 32-bit integers, and [AppendColumn] on it returns no status other than
    OK, whatever the constructor of the wrapper does. *)
Lemma AppendColumn_accepts_incompatible_array :
  compatible {| specialization := NumberColumn Int32Type; array_vector_ := [] |}
    {| array_type := StringType; array_slots := [valid (StrValue "a")] |} = false /\
  fst (AppendColumn wrap_unchecked
         {| specialization := NumberColumn Int32Type; array_vector_ := [] |}
         {| array_type := StringType; array_slots := [valid (StrValue "a")] |}) = Ret OK /\
  ~ (exists wrap s,
        s <> OK /\
        fst (AppendColumn wrap
               {| specialization := NumberColumn Int32Type; array_vector_ := [] |}
               {| array_type := StringType; array_slots := [valid (StrValue "a")] |})
        = Ret s).
Proof.
  split; [reflexivity |]. split; [reflexivity |].
  intros (wrap & s & Hne & Hs). apply Hne.
  unfold AppendColumn in Hs. destruct (wrap _ _); simpl in Hs; congruence.
Qed.

(** ** C10 *)

(** C10.  The constructor with three arguments makes the map with
    [createUnsafeHashMap(1024 * 1024, 256 * 1024 * 1024, key_size)]: 1048576
    key slots and at most 268435456 bytes, whatever the context, the columns
    and the key size are; of the arguments only [key_size] reaches the map,
    and the columns become the column list. *)
Theorem constructor_fixes_capacity_and_size :
  forall where_ ctx cols key_size heap,
    hash_table_ (fst (HashRelation_new where_ ctx cols key_size heap)) = alloc_header where_ /\
    hash_relation_column_list_ (fst (HashRelation_new where_ ctx cols key_size heap)) = cols /\
    exists m,
      snd (HashRelation_new where_ ctx cols key_size heap) !! alloc_header where_ = Some m /\
      m = createUnsafeHashMap where_ 1048576 268435456 key_size /\
      arrayCapacity m = 1048576 /\
      mapSize m = 268435456 /\
      keySize m = key_size /\
      cursor m = 0 /\
      entries m = [].
Proof.
  intros where_ ctx cols key_size heap. simpl.
  split; [reflexivity |]. split; [reflexivity |].
  eexists. split; [apply lookup_insert_eq |].
  repeat split.
Qed.

(** * Further properties *)

(** ** The counter of batches *)

(** X1.  Whatever the state a build starts in, when it returns OK the object
    is the one it started with, with [num_arrays_] raised by the number of
    batches (as long as the counter stays under 2^64): the counter counts the
    appends that returned OK, and a build touches no other member. *)
Theorem build_counts_batches :
  forall batches this heap st',
    0 <= num_arrays_ this ->
    num_arrays_ this + Z.of_nat (List.length batches) < 2 ^ 64 ->
    build batches (this, heap) = (Ret OK, st') ->
    fst st' = set_num_arrays this (num_arrays_ this + Z.of_nat (List.length batches)).
Proof.
  induction batches as [| b batches IH]; intros this heap st' Hn Hlen;
    cbn [build List.length] in *.
  - unfold ret. intros [= <-]. simpl.
    rewrite Z.add_0_r. symmetry. apply set_num_arrays_same.
  - rewrite Nat2Z.inj_succ in *.
    unfold RETURN_NOT_OK, bind.
    pose proof (AppendKeyColumn_any_this b this heap) as Hthis. cbv zeta in Hthis.
    destruct (AppendKeyColumn_any b (this, heap)) as [[s | w | |] [this1 heap1]];
      cbn [fst snd] in Hthis; try discriminate.
    destruct Hthis as [[Hs Hthis1] | [Hs Hthis1]].
    + injection Hs as ->. subst this1. intros Hbuild.
      apply IH in Hbuild; cbn [num_arrays_ set_num_arrays] in *.
      * rewrite Hbuild. rewrite to_uint64_small by lia.
        unfold set_num_arrays. cbn. f_equal. lia.
      * rewrite to_uint64_small by lia. lia.
      * rewrite to_uint64_small by lia. lia.
    + destruct s; [contradiction | | |]; unfold ret; discriminate.
Qed.

(** The two batches of the scenario leave the counter at 2. *)
Lemma build_counts_batches_witness :
  num_arrays_ (fst (snd (build (scenario_batches 0 0) scenario_start))) = 2.
Proof.
  rewrite (build_counts_batches (scenario_batches 0 0)
             (fst scenario_start) (snd scenario_start)
             (snd (build (scenario_batches 0 0) scenario_start))).
  - reflexivity.
  - simpl. lia.
  - simpl. lia.
  - vm_compute. reflexivity.
Defined.

(** ** The length of the key column *)

Lemma insert_rows_ext key_at key_at' hashes : forall i st,
  (forall j, (j < List.length hashes)%nat -> key_at (i + j)%nat = key_at' (i + j)%nat) ->
  insert_rows key_at hashes i st = insert_rows key_at' hashes i st.
Proof.
  induction hashes as [| v hashes IH]; intros i st Hext; simpl.
  - reflexivity.
  - unfold RETURN_NOT_OK, bind, eval.
    assert (H0 : key_at i = key_at' i).
    { rewrite <- (Nat.add_0_r i). apply Hext. simpl. lia. }
    rewrite <- H0.
    destruct (key_at i) as [k | w | |]; try reflexivity.
    destruct (Insert v k _ _ st) as [[s | w | |] st1]; try reflexivity.
    destruct s; try reflexivity.
    apply IH. intros j Hj. replace (S i + j)%nat with (i + S j)%nat by lia.
    apply Hext. simpl. lia.
Qed.

(** X2.  The loops of [AppendKeyColumn] run over the rows of the hash column
    only: key rows past the length of the hash column are never read, so a
    longer key column gives the same outcome and the same state as the one
    cut to the length of the hash column. *)
Theorem AppendKeyColumn_ignores_surplus_keys :
  forall in_ st,
    (forall original_key surplus,
        (List.length in_ <= List.length original_key)%nat ->
        AppendKeyColumn in_ (original_key ++ surplus) st
          = AppendKeyColumn in_ original_key st) /\
    (forall original_key surplus,
        (List.length in_ <= List.length original_key)%nat ->
        AppendKeyColumn_string in_ (original_key ++ surplus) st
          = AppendKeyColumn_string in_ original_key st).
Proof.
  intros in_ st. split; intros original_key surplus Hlen.
  - unfold AppendKeyColumn, append_batch, RETURN_NOT_OK, bind.
    erewrite insert_rows_ext; [reflexivity |].
    intros j Hj. simpl. unfold GetView.
    unfold NumericArray in *. rewrite lookup_app_l by lia. reflexivity.
  - unfold AppendKeyColumn_string, append_batch, RETURN_NOT_OK, bind.
    erewrite insert_rows_ext; [reflexivity |].
    intros j Hj. simpl. unfold GetView.
    unfold StringArray in *. rewrite lookup_app_l by lia. reflexivity.
Qed.

(** Two hashes with three keys: the third key is not inserted. *)
Lemma AppendKeyColumn_ignores_surplus_keys_witness :
  AppendKeyColumn [5; 3] ([valid 5; valid 3] ++ [valid 7]) scenario_start
    = AppendKeyColumn [5; 3] [valid 5; valid 3] scenario_start.
Proof.
  apply (proj1 (AppendKeyColumn_ignores_surplus_keys [5; 3] scenario_start)).
  simpl. lia.
Defined.

(** X3.  A batch whose hash column is empty never reaches [Insert]: each
    overload returns OK and steps the counter, whatever the key column holds
    and whether or not the relation has a map; the heap is untouched.  So an
    empty batch uses up a batch id. *)
Theorem AppendKeyColumn_empty_batch_steps_counter :
  forall b st,
    batch_hashes b = [] ->
    AppendKeyColumn_any b st =
      (Ret OK, (set_num_arrays (fst st) (to_uint64 (num_arrays_ (fst st) + 1)), snd st)).
Proof.
  intros b [this heap] Hempty.
  rewrite AppendKeyColumn_any_unfold, Hempty. reflexivity.
Qed.

(** An empty hash column with a key column of one row, on a relation without
    a map. *)
Lemma AppendKeyColumn_empty_batch_witness :
  AppendKeyColumn [] [valid 5] (HashRelation_ctx 0, ∅) =
    (Ret OK, (set_num_arrays (HashRelation_ctx 0) 1, ∅)).
Proof.
  exact (AppendKeyColumn_empty_batch_steps_counter
           (NumberBatch [] [valid 5]) (HashRelation_ctx 0, ∅) eq_refl).
Defined.

(** ** The null list *)

Lemma perform_null_index_list op st :
  null_index_list_ (fst (perform op st)) =
    match op with
    | Op_InsertNull a i =>
        if null_index_set_ (fst st)
        then null_index_list_ (fst st) ++ [mkArrayItemIndex a i]
        else [mkArrayItemIndex a i]
    | _ => null_index_list_ (fst st)
    end.
Proof.
  destruct st as [this heap].
  destruct op as [b | in_ | a i | v k | v k | sz addrs sizes | len addrs sizes];
    simpl; try reflexivity.
  - destruct (AppendKeyColumn_any_this b this heap) as [[_ ->] | [_ ->]]; reflexivity.
  - destruct (null_index_set_ this); reflexivity.
  - unfold Get. destruct (bool_decide _); [reflexivity |].
    destruct (heap !! hash_table_ this); [| reflexivity].
    destruct (safeLookup_out _ _ _ _) as [res out].
    destruct (res =? -1); reflexivity.
  - unfold IfExists. destruct (bool_decide _); [reflexivity |].
    destruct (heap !! hash_table_ this); reflexivity.
  - unfold UnsafeGetHashTableObject. destruct (bool_decide _); [reflexivity |].
    destruct (heap !! hash_table_ this); [| reflexivity].
    destruct (_ && _); reflexivity.
  - unfold UnsafeSetHashTableObject. destruct (negb _); [reflexivity |].
    destruct (addrs !! 0%nat) as [a0 |]; [| reflexivity].
    destruct (addrs !! 1%nat); [| reflexivity].
    destruct (addrs !! 2%nat); [| reflexivity].
    destruct (sizes !! 2%nat); [| reflexivity].
    destruct (bool_decide _); [reflexivity |].
    destruct (heap !! a0); reflexivity.
Qed.

Lemma perform_all_null_index_list ops : forall st,
  (null_index_set_ (fst st) = false -> null_index_list_ (fst st) = []) ->
  null_index_list_ (fst (perform_all ops st)) = null_index_list_ (fst st) ++ null_locators ops.
Proof.
  unfold perform_all.
  induction ops as [| op ops IH]; intros st Hinv; simpl.
  - rewrite app_nil_r. reflexivity.
  - rewrite IH.
    + rewrite perform_null_index_list.
      destruct op; simpl; try reflexivity.
      destruct (null_index_set_ (fst st)) eqn:Hset.
      * rewrite <- app_assoc. reflexivity.
      * rewrite (Hinv eq_refl). reflexivity.
    + rewrite perform_null_index_set. intros Hset.
      apply orb_false_iff in Hset as [Hset Hop].
      rewrite perform_null_index_list.
      destruct op; try discriminate; exact (Hinv Hset).
Qed.

(** X4.  On a relation made by any of the constructors, after any sequence of
    calls, [null_index_list_] holds the locators that were given to
    [InsertNull], one for each call, in the order of the calls; no other call
    adds to it or takes from it. *)
Theorem null_list_holds_InsertNull_calls_in_order :
  forall st ops,
    constructed st ->
    null_index_list_ (fst (perform_all ops st)) = null_locators ops.
Proof.
  intros st ops Hc.
  rewrite perform_all_null_index_list.
  - destruct Hc; reflexivity.
  - intros _. destruct Hc; reflexivity.
Qed.

(** Two null rows reported around an append and a probe. *)
Lemma null_list_witness :
  null_index_list_
    (fst (perform_all
            [Op_InsertNull 0 2;
             Op_AppendKeyColumn (NumberBatch [5; 3] [valid 5; valid 3]);
             Op_Get 3 (NumKey 3);
             Op_InsertNull 1 0] scenario_start))
  = [mkArrayItemIndex 0 2; mkArrayItemIndex 1 0].
Proof.
  apply (null_list_holds_InsertNull_calls_in_order scenario_start).
  apply constructed_new.
Defined.

(** ** One insertion, then a probe *)

Lemma append_find m k h p vlen m' k' h' e :
  append m k h p vlen = Some m' ->
  find_entry (entries m) k' h' = Some e ->
  exists e',
    find_entry (entries m') k' h' = Some e' /\
    entry_records e' =
      entry_records e ++ (if bool_decide ((h, k) = (h', k')) then [p] else []).
Proof.
  intros Ha He.
  pose proof (append_bucket _ _ _ _ _ _ k' h' Ha) as Hb.
  pose proof (proj2 (append_present _ _ _ _ _ _ k' h' Ha)) as Hp.
  destruct Hp as [e' He']; [left; rewrite He; eauto |].
  exists e'. split; [exact He' |].
  unfold bucket in Hb. rewrite He, He' in Hb. exact Hb.
Qed.

(** X5.  In any state whose handle points to a map, an [Insert] that returns
    OK is seen by the next [Get] with the same hash and key: it returns 0 and
    the cached list is what the key had before followed by the new locator.
    A [Get] with another hash or key returns what it would have returned
    before the insertion. *)
Theorem Insert_then_Get :
  forall v k a i this heap m st',
    hash_table_ this <> nullptr ->
    heap !! hash_table_ this = Some m ->
    Insert v k a i (this, heap) = (Ret OK, st') ->
    (fst (Get v k st') = Ret 0 /\
     GetItemListByIndex (fst (snd (Get v k st'))) 0 = bucket m k v ++ [mkArrayItemIndex a i]) /\
    (forall v' k', (v, k) <> (v', k') ->
       fst (Get v' k' st') = fst (Get v' k' (this, heap)) /\
       GetItemListByIndex (fst (snd (Get v' k' st'))) 0
         = GetItemListByIndex (fst (snd (Get v' k' (this, heap)))) 0).
Proof.
  intros v k a i this heap m st' Hp Hm. unfold Insert.
  rewrite bool_decide_eq_false_2 by exact Hp. rewrite Hm.
  destruct (append m k v _ sizeof_ArrayItemIndex) as [m' |] eqn:Ha; [| discriminate].
  intros [= <-].
  assert (Hm' : (<[hash_table_ this := m']> heap) !! hash_table_ this = Some m')
    by apply lookup_insert_eq.
  split.
  - pose proof (append_bucket _ _ _ _ _ _ k v Ha) as Hb.
    rewrite bool_decide_eq_true_2 in Hb by reflexivity.
    destruct (proj2 (append_present _ _ _ _ _ _ k v Ha)) as [e' He']; [right; reflexivity |].
    rewrite (Get_found this _ m' v k e' Hp Hm' He'). simpl.
    unfold bucket in Hb at 1. rewrite He' in Hb. split; [reflexivity | exact Hb].
  - intros v' k' Hne.
    pose proof (append_bucket _ _ _ _ _ _ k' v' Ha) as Hb.
    rewrite bool_decide_eq_false_2, app_nil_r in Hb by exact Hne.
    pose proof (append_present _ _ _ _ _ _ k' v' Ha) as Hpres.
    unfold bucket in Hb.
    destruct (find_entry (entries m) k' v') as [e |] eqn:He;
      destruct (find_entry (entries m') k' v') as [e' |] eqn:He'.
    + rewrite (Get_found this _ m' v' k' e' Hp Hm' He'),
        (Get_found this heap m v' k' e Hp Hm He). simpl. rewrite Hb. auto.
    + exfalso. apply (is_Some_None (A := Entry)). apply Hpres. left. eauto.
    + exfalso. assert (Hs : is_Some (Some e')) by eauto.
      apply Hpres in Hs as [[? ?] | ?]; [discriminate | contradiction].
    + rewrite (Get_missing this _ m' v' k' Hp Hm' He'),
        (Get_missing this heap m v' k' Hp Hm He). auto.
Qed.

(** A third row with key 3 inserted after batch 0 of the scenario. *)
Lemma Insert_then_Get_witness :
  GetItemListByIndex
    (fst (snd (Get 3 (NumKey 3)
                 (snd (Insert 3 (NumKey 3) 7 9
                         (snd (AppendKeyColumn [5; 3] [valid 5; valid 3] scenario_start))))))) 0
  = [mkArrayItemIndex 0 1; mkArrayItemIndex 7 9].
Proof.
  set (st := snd (AppendKeyColumn [5; 3] [valid 5; valid 3] scenario_start)).
  destruct (Insert_then_Get 3 (NumKey 3) 7 9 (fst st) (snd st)
              (mkUnsafeHashMap 8192 16384 1048576 12 4 268435456 16
                 [mkEntry 5 (NumKey 5) [mkArrayItemIndex 0 0];
                  mkEntry 3 (NumKey 3) [mkArrayItemIndex 0 1]])
              (snd (Insert 3 (NumKey 3) 7 9 st))) as [[_ Hl] _].
  - vm_compute. discriminate.
  - vm_compute. reflexivity.
  - vm_compute. reflexivity.
  - rewrite Hl. vm_compute. reflexivity.
Defined.

(** ** Buckets only grow *)

Lemma run_rows_find rows : forall m m' ok k h e,
  run_rows m rows = (m', ok) ->
  find_entry (entries m) k h = Some e ->
  exists e' more,
    find_entry (entries m') k h = Some e' /\
    entry_records e' = entry_records e ++ more.
Proof.
  induction rows as [| [[h0 k0] loc0] rows IH]; intros m m' ok k h e; simpl.
  - intros [= <- _] He. exists e, []. rewrite app_nil_r. auto.
  - destruct (append m k0 h0 loc0 sizeof_ArrayItemIndex) as [m1 |] eqn:Ha.
    + intros Hrun He.
      destruct (append_find _ _ _ _ _ _ k h e Ha He) as (e1 & He1 & Hr1).
      destruct (IH _ _ _ _ _ _ Hrun He1) as (e' & more & He' & Hr').
      exists e'. eexists. split; [exact He' |].
      rewrite Hr', Hr1, <- app_assoc. reflexivity.
    + intros [= <- _] He. exists e, []. rewrite app_nil_r. auto.
Qed.

(** X6.  Whatever [AppendKeyColumn] does on a relation whose handle points to
    a map (OK, a capacity error in the middle of the batch, a key column that
    is too short), a key that [Get] found before the call is found after it,
    and the list [Get] caches after the call starts with the list it cached
    before: locators are only ever added at the end of a bucket. *)
Theorem AppendKeyColumn_only_extends_buckets :
  forall b this heap m v k,
    hash_table_ this <> nullptr ->
    heap !! hash_table_ this = Some m ->
    fst (Get v k (this, heap)) = Ret 0 ->
    fst (Get v k (snd (AppendKeyColumn_any b (this, heap)))) = Ret 0 /\
    exists more,
      GetItemListByIndex
        (fst (snd (Get v k (snd (AppendKeyColumn_any b (this, heap)))))) 0
      = GetItemListByIndex (fst (snd (Get v k (this, heap)))) 0 ++ more.
Proof.
  intros b this heap m v k Hp Hm Hfound.
  destruct (find_entry (entries m) k v) as [e |] eqn:He.
  2: { rewrite (Get_missing this heap m v k Hp Hm He) in Hfound. discriminate. }
  rewrite (Get_found this heap m v k e Hp Hm He).
  rewrite (AppendKeyColumn_any_spec b this heap m Hp Hm).
  destruct (run_rows m _) as [m' ok] eqn:Hrun.
  destruct (run_rows_find _ _ _ _ _ _ _ Hrun He) as (e' & more & He' & Hr').
  assert (Hm' : (<[hash_table_ this := m']> heap) !! hash_table_ this = Some m')
    by apply lookup_insert_eq.
  assert (HG : forall this', hash_table_ this' = hash_table_ this ->
             fst (Get v k (this', <[hash_table_ this := m']> heap)) = Ret 0 /\
             GetItemListByIndex
               (fst (snd (Get v k (this', <[hash_table_ this := m']> heap)))) 0
             = entry_records e ++ more).
  { intros this' Heq.
    rewrite (Get_found this' _ m' v k e'); [| rewrite Heq; exact Hp | rewrite Heq; exact Hm' | exact He'].
    simpl. auto. }
  destruct ok; [destruct (decide _) |]; cbn [snd];
    (destruct (HG this eq_refl) as [H1 H2] ||
     destruct (HG (set_num_arrays this (to_uint64 (num_arrays_ this + 1))) eq_refl) as [H1 H2]).
  all: try (split; [exact H1 | exists more; exact H2]).
  all: destruct (HG (set_num_arrays this (to_uint64 (num_arrays_ this + 1))) eq_refl) as [H3 H4];
    split; [exact H3 | exists more; exact H4].
Qed.

(** Batch 1 of the scenario appended after batch 0: the list of key 3 grows
    from [(0,1)] to [(0,1), (1,0)]. *)
Lemma AppendKeyColumn_only_extends_buckets_witness :
  exists more,
    GetItemListByIndex
      (fst (snd (Get 3 (NumKey 3)
                   (snd (AppendKeyColumn [3; 7] [valid 3; valid 7]
                           (snd (AppendKeyColumn [5; 3] [valid 5; valid 3] scenario_start))))))) 0
    = [mkArrayItemIndex 0 1] ++ more.
Proof.
  set (st := snd (AppendKeyColumn [5; 3] [valid 5; valid 3] scenario_start)).
  destruct (AppendKeyColumn_only_extends_buckets
              (NumberBatch [3; 7] [valid 3; valid 7]) (fst st) (snd st)
              (mkUnsafeHashMap 8192 16384 1048576 12 4 268435456 16
                 [mkEntry 5 (NumKey 5) [mkArrayItemIndex 0 0];
                  mkEntry 3 (NumKey 3) [mkArrayItemIndex 0 1]])
              3 (NumKey 3)) as [_ [more Hmore]].
  - vm_compute. discriminate.
  - vm_compute. reflexivity.
  - vm_compute. reflexivity.
  - exists more. exact Hmore.
Defined.

(** ** Probes *)

Lemma Get_cases v k this heap :
  (Get v k (this, heap) = (Throw "HashRelation Get failed, hash_table is null.", (this, heap))) \/
  (Get v k (this, heap) = (Undefined, (this, heap))) \/
  (Get v k (this, heap) = (Ret (-1), (this, heap))) \/
  (exists l, Get v k (this, heap) = (Ret 0, (set_arrayid_list this l, heap)) /\
             forall this', hash_table_ this' = hash_table_ this ->
               Get v k (this', heap) = (Ret 0, (set_arrayid_list this' l, heap))).
Proof.
  destruct (decide (hash_table_ this = nullptr)) as [Hn | Hn].
  { left. unfold Get. rewrite bool_decide_eq_true_2 by exact Hn. reflexivity. }
  destruct (heap !! hash_table_ this) as [m |] eqn:Hm.
  2: { right; left. unfold Get. rewrite bool_decide_eq_false_2 by exact Hn.
       rewrite Hm. reflexivity. }
  destruct (find_entry (entries m) k v) as [e |] eqn:He.
  - right; right; right. exists (entry_records e). split.
    + apply (Get_found _ _ m); assumption.
    + intros this' Heq. apply (Get_found _ _ m); rewrite ?Heq; assumption.
  - right; right; left. apply (Get_missing _ _ m); assumption.
Qed.

(** X7.  A [Get] changes no member but [arrayid_list_] and nothing on the
    heap; what a [Get] or an [IfExists] returns, and the list a [Get] that
    finds its key caches, do not depend on the probes made before it; and a
    [Get] made twice in a row returns the same and leaves the same state as
    made once. *)
Theorem probes_do_not_interfere :
  forall v k v' k' st,
    fst (snd (Get v k st)) = set_arrayid_list (fst st) (arrayid_list_ (fst (snd (Get v k st)))) /\
    snd (snd (Get v k st)) = snd st /\
    fst (Get v' k' (snd (Get v k st))) = fst (Get v' k' st) /\
    fst (IfExists v' k' (snd (Get v k st))) = fst (IfExists v' k' st) /\
    (fst (Get v' k' st) = Ret 0 ->
     arrayid_list_ (fst (snd (Get v' k' (snd (Get v k st)))))
       = arrayid_list_ (fst (snd (Get v' k' st)))) /\
    Get v k (snd (Get v k st)) = (fst (Get v k st), snd (Get v k st)).
Proof.
  intros v k v' k' [this heap].
  assert (Hset : forall l, hash_table_ (set_arrayid_list this l) = hash_table_ this)
    by reflexivity.
  assert (HI : forall l, fst (IfExists v' k' (set_arrayid_list this l, heap))
                         = fst (IfExists v' k' (this, heap))).
  { intros l. unfold IfExists. simpl.
    destruct (bool_decide _); [reflexivity |].
    destruct (heap !! hash_table_ this); reflexivity. }
  assert (HG : forall l,
             fst (Get v' k' (set_arrayid_list this l, heap)) = fst (Get v' k' (this, heap)) /\
             (fst (Get v' k' (this, heap)) = Ret 0 ->
              arrayid_list_ (fst (snd (Get v' k' (set_arrayid_list this l, heap))))
              = arrayid_list_ (fst (snd (Get v' k' (this, heap)))))).
  { intros l.
    destruct (Get_cases v' k' this heap) as [H | [H | [H | (l' & H & Hany)]]].
    - rewrite H. unfold Get in *. simpl in *.
      destruct (bool_decide _); [split; [reflexivity | discriminate] |].
      destruct (heap !! hash_table_ this); [| discriminate].
      destruct (safeLookup_out _ _ _ _) as [res out].
      destruct (res =? -1); discriminate.
    - rewrite H. unfold Get in *. simpl in *.
      destruct (bool_decide _); [discriminate |].
      destruct (heap !! hash_table_ this) as [m |]; [| split; [reflexivity | discriminate]].
      destruct (safeLookup_out _ _ _ _) as [res out].
      destruct (res =? -1); discriminate.
    - rewrite H. unfold Get in *. simpl in *.
      destruct (bool_decide _); [discriminate |].
      destruct (heap !! hash_table_ this) as [m |]; [| discriminate].
      unfold safeLookup_out in *.
      destruct (find_entry (entries m) k' v'); simpl in *; [discriminate |].
      split; [reflexivity | discriminate].
    - rewrite H, (Hany (set_arrayid_list this l) (Hset l)). split; reflexivity. }
  destruct (Get_cases v k this heap) as [H | [H | [H | (l & H & Hany)]]].
  - rewrite !H. cbn [fst snd]. rewrite set_arrayid_list_same, H. repeat split.
  - rewrite !H. cbn [fst snd]. rewrite set_arrayid_list_same, H. repeat split.
  - rewrite !H. cbn [fst snd]. rewrite set_arrayid_list_same, H. repeat split.
  - rewrite !H. cbn [fst snd].
    rewrite (Hany (set_arrayid_list this l) (Hset l)).
    destruct (HG l) as [HG1 HG2].
    repeat split; try assumption. apply HI.
Qed.

(** ** Export and import *)

Lemma same_map_but_cursor m :
  {| keyArray := keyArray m; bytesMap := bytesMap m;
     arrayCapacity := arrayCapacity m; bytesInKeyArray := bytesInKeyArray m;
     keySize := keySize m; mapSize := mapSize m;
     cursor := cursor m; entries := entries m |} = m.
Proof. destruct m; reflexivity. Qed.

(** X8.  The descriptors [UnsafeGetHashTableObject] writes for a relation,
    given to [UnsafeSetHashTableObject] of any other relation, attach it to
    the same map: the import returns OK, the handle of the importer is the
    handle of the exporter, [unsafe_set] is set, and every [Get] and
    [IfExists] on the importer returns what it returns on the exporter, with
    the same cached list when the key is found.  When the cursor fits an
    [int] the import leaves the heap as it is; otherwise the header gets the
    cursor cut to an [int]. *)
Theorem export_then_import_attaches :
  forall sz addrs0 sizes0 this heap m that,
    hash_table_ this <> nullptr ->
    heap !! hash_table_ this = Some m ->
    (3 <= List.length addrs0)%nat ->
    (3 <= List.length sizes0)%nat ->
    exists addrs sizes that' heap',
      UnsafeGetHashTableObject sz addrs0 sizes0 (this, heap)
        = (Ret (OK, (addrs, sizes)), (this, heap)) /\
      UnsafeSetHashTableObject 3 addrs sizes (that, heap) = (Ret OK, (that', heap')) /\
      hash_table_ that' = hash_table_ this /\
      unsafe_set that' = true /\
      arrayid_list_ that' = arrayid_list_ that /\
      (forall q, q <> hash_table_ this -> heap' !! q = heap !! q) /\
      (exists m', heap' !! hash_table_ this = Some m' /\
                  entries m' = entries m /\ cursor m' = to_int (cursor m)) /\
      (- 2 ^ 31 <= cursor m < 2 ^ 31 -> heap' = heap) /\
      (forall v k,
          fst (Get v k (that', heap')) = fst (Get v k (this, heap)) /\
          fst (IfExists v k (that', heap')) = fst (IfExists v k (this, heap)) /\
          (fst (Get v k (this, heap)) = Ret 0 ->
           arrayid_list_ (fst (snd (Get v k (that', heap'))))
             = arrayid_list_ (fst (snd (Get v k (this, heap)))))).
Proof.
  intros sz addrs0 sizes0 this heap m that Hp Hm Ha Hs.
  unfold UnsafeGetHashTableObject.
  rewrite bool_decide_eq_false_2 by exact Hp. rewrite Hm.
  rewrite !bool_decide_eq_true_2 by assumption. cbn [andb].
  rewrite !write_three by assumption.
  exists ([hash_table_ this; keyArray m; bytesMap m] ++ drop 3 addrs0),
         ([to_int sz; to_int (arrayCapacity m * bytesInKeyArray m); to_int (cursor m)]
            ++ drop 3 sizes0).
  unfold UnsafeSetHashTableObject. cbn [Z.eqb Pos.eqb negb].
  cbn [lookup list_lookup app].
  rewrite bool_decide_eq_false_2 by exact Hp. rewrite Hm.
  do 2 eexists. split; [reflexivity |]. split; [reflexivity |].
  cbn [hash_table_ unsafe_set arrayid_list_].
  split; [reflexivity |]. split; [reflexivity |]. split; [reflexivity |].
  split; [intros q Hq; apply lookup_insert_ne; congruence |].
  split; [eexists; split; [apply lookup_insert_eq | split; reflexivity] |].
  split.
  { intros Hc. rewrite to_int_small by exact Hc.
    rewrite same_map_but_cursor. apply insert_id. exact Hm. }
  intros v k.
  unfold Get, IfExists. cbn [hash_table_ arrayid_list_].
  rewrite !bool_decide_eq_false_2 by exact Hp.
  rewrite lookup_insert_eq, Hm.
  unfold safeLookup_out, safeLookup. cbn [entries].
  destruct (find_entry (entries m) k v); simpl; repeat split; discriminate.
Qed.

(** The relation of the scenario exported, and a relation without a map
    attached to it. *)
Lemma export_then_import_witness :
  exists addrs sizes that',
    UnsafeGetHashTableObject 40 [0; 0; 0] [0; 0; 0] scenario_start
      = (Ret (OK, (addrs, sizes)), scenario_start) /\
    UnsafeSetHashTableObject 3 addrs sizes (HashRelation_ctx 0, snd scenario_start)
      = (Ret OK, (that', snd scenario_start)) /\
    hash_table_ that' = 4096.
Proof.
  destruct (export_then_import_attaches 40 [0; 0; 0] [0; 0; 0]
              (fst scenario_start) (snd scenario_start)
              (createUnsafeHashMap scenario_where (1024 * 1024) (256 * 1024 * 1024) 4)
              (HashRelation_ctx 0))
    as (addrs & sizes & that' & heap' & Hget & Hset & Hh & _ & _ & _ & _ & Hheap & _).
  - vm_compute. discriminate.
  - vm_compute. reflexivity.
  - simpl. lia.
  - simpl. lia.
  - exists addrs, sizes, that'.
    rewrite Hheap in Hset by (simpl; lia).
    split; [exact Hget |]. split; [exact Hset | exact Hh].
Defined.

(** ** The end of an owning relation *)

(** X9.  The destructor of a relation that has a map and did not import it
    calls [destroyHashMap] once, on its handle: the map is gone from the
    heap, every other map is still there, and the handle is null.  Running
    the destructor body again calls nothing, and a probe on what is left
    throws. *)
Theorem destructor_releases_owned_map_once :
  forall this heap,
    hash_table_ this <> nullptr ->
    unsafe_set this = false ->
    fst (HashRelation_destroy (this, heap)) = [Call_destroyHashMap (hash_table_ this)] /\
    hash_table_ (fst (snd (HashRelation_destroy (this, heap)))) = nullptr /\
    snd (snd (HashRelation_destroy (this, heap))) !! hash_table_ this = None /\
    (forall q, q <> hash_table_ this ->
       snd (snd (HashRelation_destroy (this, heap))) !! q = heap !! q) /\
    HashRelation_destroy (snd (HashRelation_destroy (this, heap)))
      = ([], snd (HashRelation_destroy (this, heap))) /\
    (forall v k,
       fst (Get v k (snd (HashRelation_destroy (this, heap))))
         = Throw "HashRelation Get failed, hash_table is null." /\
       fst (IfExists v k (snd (HashRelation_destroy (this, heap))))
         = Throw "HashRelation Get failed, hash_table is null.").
Proof.
  intros this heap Hp Hset. unfold HashRelation_destroy at 1 2 3 4 6 7 8.
  rewrite bool_decide_eq_false_2 by exact Hp. rewrite Hset. cbn [negb andb fst snd].
  unfold HashRelation_destroy at 2.
  rewrite bool_decide_eq_false_2 by exact Hp. rewrite Hset. cbn [negb andb fst snd].
  repeat split.
  - apply lookup_delete_eq.
  - intros q Hq. apply lookup_delete_ne. congruence.
Qed.

(** The relation of the scenario destroyed. *)
Lemma destructor_releases_owned_map_witness :
  fst (HashRelation_destroy scenario_start) = [Call_destroyHashMap 4096] /\
  snd (snd (HashRelation_destroy scenario_start)) !! 4096 = None.
Proof.
  destruct (destructor_releases_owned_map_once (fst scenario_start) (snd scenario_start))
    as (Hcalls & _ & Hgone & _).
  - vm_compute. discriminate.
  - reflexivity.
  - split; [exact Hcalls | exact Hgone].
Defined.

(** Two probes after batch 0 of the scenario. *)
Lemma probes_do_not_interfere_witness :
  arrayid_list_
    (fst (snd (Get 3 (NumKey 3)
                 (snd (Get 5 (NumKey 5)
                         (snd (AppendKeyColumn [5; 3] [valid 5; valid 3] scenario_start)))))))
  = arrayid_list_
      (fst (snd (Get 3 (NumKey 3)
                   (snd (AppendKeyColumn [5; 3] [valid 5; valid 3] scenario_start))))).
Proof.
  destruct (probes_do_not_interfere 5 (NumKey 5) 3 (NumKey 3)
              (snd (AppendKeyColumn [5; 3] [valid 5; valid 3] scenario_start)))
    as (_ & _ & _ & _ & Hlist & _).
  apply Hlist. vm_compute. reflexivity.
Defined.

(** ** The column stores *)

Lemma AppendColumn_each_vector wrap ins : forall c,
  (forall a, a ∈ ins ->
     exists typed, wrap (wrapper_type (specialization c)) a = Ret typed /\ cache_ typed = a) ->
  specialization (AppendColumn_each wrap c ins) = specialization c /\
  exists typed_ins,
    array_vector_ (AppendColumn_each wrap c ins) = array_vector_ c ++ typed_ins /\
    map cache_ typed_ins = ins.
Proof.
  unfold AppendColumn_each.
  induction ins as [| a ins IH]; intros c Hwrap; simpl.
  - split; [reflexivity |]. exists []. rewrite app_nil_r. auto.
  - destruct (Hwrap a) as (typed & Hw & Hc); [left |].
    unfold AppendColumn at 2 4. rewrite Hw. cbn [snd].
    destruct (IH {| specialization := specialization c;
                    array_vector_ := array_vector_ c ++ [typed] |})
      as (Hspec & typed_ins & Hvec & Hmap).
    + simpl. intros a' Ha'. apply Hwrap. right. exact Ha'.
    + split; [exact Hspec |].
      exists (typed :: typed_ins). simpl in Hvec. rewrite Hvec, <- app_assoc.
      simpl. rewrite Hc, Hmap. auto.
Qed.

(** X10.  When the wrapper made for each array keeps that array as its
    [cache_], a column that was given arrays with [AppendColumn] hands them
    back with [GetArrayVector]: the call returns OK and adds to the end of
    [out], after what [out] held, the arrays of the column in the order they
    were appended.  It replaces nothing in [out]. *)
Theorem GetArrayVector_returns_appended_arrays :
  forall wrap c ins out,
    (forall a, a ∈ ins ->
       exists typed, wrap (wrapper_type (specialization c)) a = Ret typed /\
                     cache_ typed = a) ->
    GetArrayVector (AppendColumn_each wrap c ins) out
      = (Ret OK, out ++ map cache_ (array_vector_ c) ++ ins).
Proof.
  intros wrap c ins out Hwrap.
  destruct (AppendColumn_each_vector wrap ins c Hwrap) as (_ & typed_ins & Hvec & Hmap).
  unfold GetArrayVector. rewrite Hvec, map_app, Hmap. reflexivity.
Qed.

(** Two arrays appended to an empty column of 32-bit integers and read back
    into a vector that held one array. *)
Lemma GetArrayVector_returns_appended_arrays_witness :
  GetArrayVector
    (AppendColumn_each wrap_unchecked
       {| specialization := NumberColumn Int32Type; array_vector_ := [] |}
       [mkArray Int32Type [valid (NumValue 1)]; mkArray Int32Type [null (NumValue 0)]])
    [mkArray Int32Type []]
  = (Ret OK,
     [mkArray Int32Type [];
      mkArray Int32Type [valid (NumValue 1)]; mkArray Int32Type [null (NumValue 0)]]).
Proof.
  apply (GetArrayVector_returns_appended_arrays wrap_unchecked
           {| specialization := NumberColumn Int32Type; array_vector_ := [] |}
           [mkArray Int32Type [valid (NumValue 1)]; mkArray Int32Type [null (NumValue 0)]]
           [mkArray Int32Type []]).
  intros a _. exists {| cache_ := a |}. split; reflexivity.
Defined.

(** X11.  When the wrapper made for each array keeps that array as its
    [cache_]: after arrays are appended to a column, the [j]-th of them is
    array number [length of the store before + j]; [IsNull] at that number
    and a row offset inside the array gives the validity of that slot, and,
    when the array is of the type of the column and the slot holds a value of
    the kind the column returns, [GetValue] gives the value stored in the
    slot.  What the two give for the arrays that were in the store before is
    unchanged. *)
Theorem column_reads_appended_slots :
  forall wrap c ins,
    (forall a, a ∈ ins ->
       exists typed, wrap (wrapper_type (specialization c)) a = Ret typed /\
                     cache_ typed = a) ->
    (forall j a i s,
        ins !! j = Some a ->
        array_slots a !! i = Some s ->
        Column_IsNull (AppendColumn_each wrap c ins)
          (Z.of_nat (List.length (array_vector_ c) + j)) (Z.of_nat i)
          = Ret (negb (slot_valid s)) /\
        (compatible c a = true ->
         value_fits (specialization c) (slot_raw s) = true ->
         Column_GetValue (AppendColumn_each wrap c ins)
           (Z.of_nat (List.length (array_vector_ c) + j)) (Z.of_nat i)
           = Ret (slot_raw s))) /\
    (forall b i,
        b < Z.of_nat (List.length (array_vector_ c)) ->
        Column_IsNull (AppendColumn_each wrap c ins) b i = Column_IsNull c b i /\
        Column_GetValue (AppendColumn_each wrap c ins) b i = Column_GetValue c b i).
Proof.
  intros wrap c ins Hwrap.
  destruct (AppendColumn_each_vector wrap ins c Hwrap) as (Hspec & typed_ins & Hvec & Hmap).
  assert (Hcompat : forall a, compatible (AppendColumn_each wrap c ins) a = compatible c a).
  { intros a. unfold compatible. rewrite Hspec. reflexivity. }
  split.
  - intros j a i s Hj Hi.
    assert (Hlook : exists typed,
               array_vector_ (AppendColumn_each wrap c ins)
                 !! (List.length (array_vector_ c) + j)%nat = Some typed /\
               cache_ typed = a).
    { rewrite Hvec, lookup_app_r by lia.
      replace (List.length (array_vector_ c) + j - List.length (array_vector_ c))%nat
        with j by lia.
      rewrite <- Hmap in Hj. change (map cache_ typed_ins) with (cache_ <$> typed_ins) in Hj.
      rewrite list_lookup_fmap in Hj.
      destruct (typed_ins !! j) as [typed |]; simpl in Hj; [| discriminate].
      exists typed. split; [reflexivity | congruence]. }
    destruct Hlook as (typed & Hl & Hc).
    unfold Column_IsNull, Column_GetValue.
    assert (Hneg : forall n, (Z.of_nat n <? 0) = false)
      by (intros n; apply Z.ltb_ge; lia).
    rewrite !Hneg. cbn [orb]. rewrite !Nat2Z.id, Hl, Hc.
    unfold IsNull, GetView. rewrite Hi. split; [reflexivity |].
    intros Hfit Hval. rewrite Hcompat, Hfit, Hspec, Hval. reflexivity.
  - intros b i Hb. unfold Column_IsNull, Column_GetValue.
    destruct ((b <? 0) || (i <? 0)) eqn:Hneg; [split; reflexivity |].
    apply orb_false_iff in Hneg as [Hb0 _].
    rewrite Hvec, lookup_app_l by lia. split; [reflexivity |].
    destruct (array_vector_ c !! Z.to_nat b) as [typed |]; [| reflexivity].
    rewrite Hcompat, Hspec. reflexivity.
Qed.

(** An array of 32-bit integers with a null slot appended after another to a
    column of 32-bit integers: it is array 1. *)
Lemma column_reads_appended_slots_witness :
  Column_IsNull
    (AppendColumn_each wrap_unchecked
       {| specialization := NumberColumn Int32Type;
          array_vector_ := [ {| cache_ := mkArray Int32Type [valid (NumValue 1)] |} ] |}
       [mkArray Int32Type [valid (NumValue 5); null (NumValue 0)]]) 1 1
  = Ret true /\
  Column_GetValue
    (AppendColumn_each wrap_unchecked
       {| specialization := NumberColumn Int32Type;
          array_vector_ := [ {| cache_ := mkArray Int32Type [valid (NumValue 1)] |} ] |}
       [mkArray Int32Type [valid (NumValue 5); null (NumValue 0)]]) 1 0
  = Ret (NumValue 5).
Proof.
  destruct (column_reads_appended_slots wrap_unchecked
              {| specialization := NumberColumn Int32Type;
                 array_vector_ := [ {| cache_ := mkArray Int32Type [valid (NumValue 1)] |} ] |}
              [mkArray Int32Type [valid (NumValue 5); null (NumValue 0)]]) as [Hread _].
  - intros a _. exists {| cache_ := a |}. split; reflexivity.
  - split.
    + exact (proj1 (Hread 0%nat (mkArray Int32Type [valid (NumValue 5); null (NumValue 0)])
                      1%nat (null (NumValue 0)) eq_refl eq_refl)).
    + exact (proj2 (Hread 0%nat (mkArray Int32Type [valid (NumValue 5); null (NumValue 0)])
                      0%nat (valid (NumValue 5)) eq_refl eq_refl) eq_refl eq_refl).
Defined.

(** ** Payload columns of the relation *)

(** X12.  [AppendPayloadColumn] on an index inside the column list, with a
    wrapper that keeps its array, returns OK and gives the array to that
    column: [GetArrayVector] on the same index then adds to [out] the arrays
    the column had followed by the new one.  The call steps no counter and
    touches neither the heap nor the cached list, so every [Get] returns what
    it returned before. *)
Theorem AppendPayloadColumn_reaches_its_column :
  forall wrap idx in_ this heap c typed out,
    0 <= idx ->
    hash_relation_column_list_ this !! Z.to_nat idx = Some c ->
    wrap (wrapper_type (specialization c)) in_ = Ret typed ->
    cache_ typed = in_ ->
    fst (AppendPayloadColumn wrap idx in_ (this, heap)) = Ret OK /\
    snd (snd (AppendPayloadColumn wrap idx in_ (this, heap))) = heap /\
    num_arrays_ (fst (snd (AppendPayloadColumn wrap idx in_ (this, heap)))) = num_arrays_ this /\
    HashRelation_GetArrayVector idx out (snd (AppendPayloadColumn wrap idx in_ (this, heap)))
      = (Ret (OK, out ++ map cache_ (array_vector_ c) ++ [in_]),
         snd (AppendPayloadColumn wrap idx in_ (this, heap))) /\
    (forall v k,
       fst (Get v k (snd (AppendPayloadColumn wrap idx in_ (this, heap))))
         = fst (Get v k (this, heap)) /\
       arrayid_list_ (fst (snd (Get v k (snd (AppendPayloadColumn wrap idx in_ (this, heap))))))
         = arrayid_list_ (fst (snd (Get v k (this, heap))))).
Proof.
  intros wrap idx in_ this heap c typed out Hidx Hc Hw Hcache.
  unfold AppendPayloadColumn.
  destruct (Z.ltb_spec idx 0) as [Hneg | _]; [lia |].
  rewrite Hc. unfold AppendColumn. rewrite Hw. cbn [fst snd].
  split; [reflexivity |]. split; [reflexivity |]. split; [reflexivity |]. split.
  - unfold HashRelation_GetArrayVector.
    destruct (Z.ltb_spec idx 0) as [Hneg | _]; [lia |].
    cbn [hash_relation_column_list_ set_column_list].
    rewrite list_lookup_insert_eq by (apply lookup_lt_Some in Hc; exact Hc).
    unfold GetArrayVector. cbn [array_vector_].
    rewrite map_app. simpl. rewrite Hcache. reflexivity.
  - intros v k. unfold Get. cbn [hash_table_ set_column_list arrayid_list_].
    destruct (bool_decide _); [split; reflexivity |].
    destruct (heap !! hash_table_ this); [| split; reflexivity].
    destruct (safeLookup_out _ _ _ _) as [res out'].
    destruct (res =? -1); split; reflexivity.
Qed.

(** One payload column; an array is appended to it through the relation. *)
Lemma AppendPayloadColumn_reaches_its_column_witness :
  HashRelation_GetArrayVector 0 []
    (snd (AppendPayloadColumn wrap_unchecked 0 (mkArray Int32Type [valid (NumValue 1)])
            (HashRelation_columns
               [ {| specialization := NumberColumn Int32Type; array_vector_ := [] |} ], ∅)))
  = (Ret (OK, [mkArray Int32Type [valid (NumValue 1)]]),
     snd (AppendPayloadColumn wrap_unchecked 0 (mkArray Int32Type [valid (NumValue 1)])
            (HashRelation_columns
               [ {| specialization := NumberColumn Int32Type; array_vector_ := [] |} ], ∅))).
Proof.
  destruct (AppendPayloadColumn_reaches_its_column wrap_unchecked 0
              (mkArray Int32Type [valid (NumValue 1)])
              (HashRelation_columns
                 [ {| specialization := NumberColumn Int32Type; array_vector_ := [] |} ])
              ∅ {| specialization := NumberColumn Int32Type; array_vector_ := [] |}
              {| cache_ := mkArray Int32Type [valid (NumValue 1)] |} [])
    as (_ & _ & _ & Hget & _).
  - lia.
  - reflexivity.
  - reflexivity.
  - reflexivity.
  - exact Hget.
Defined.

(** ** Import into a relation that has a map *)

(** X13.  [UnsafeSetHashTableObject] overwrites the handle without releasing
    the map the relation had.  When a relation that owns a map imports
    another one and returns OK, its own map stays on the heap as it was, the
    handle points to the imported map, and the destructor calls nothing: the
    relation never releases the map it made. *)
Theorem import_abandons_owned_map :
  forall this heap m addrs sizes st',
    hash_table_ this <> nullptr ->
    heap !! hash_table_ this = Some m ->
    addrs !! 0%nat <> Some (hash_table_ this) ->
    UnsafeSetHashTableObject 3 addrs sizes (this, heap) = (Ret OK, st') ->
    addrs !! 0%nat = Some (hash_table_ (fst st')) /\
    snd st' !! hash_table_ this = Some m /\
    HashRelation_destroy st' = ([], st') /\
    snd (snd (HashRelation_destroy st')) !! hash_table_ this = Some m.
Proof.
  intros this heap m addrs sizes st' Hp Hm Hother.
  unfold UnsafeSetHashTableObject. cbn [Z.eqb Pos.eqb negb].
  destruct (addrs !! 0%nat) as [a0 |]; [| discriminate].
  destruct (addrs !! 1%nat) as [a1 |]; [| discriminate].
  destruct (addrs !! 2%nat) as [a2 |]; [| discriminate].
  destruct (sizes !! 2%nat) as [s2 |]; [| discriminate].
  destruct (bool_decide _); [discriminate |].
  destruct (heap !! a0) as [m0 |]; [| discriminate].
  intros [= <-]. cbn [fst snd hash_table_].
  assert (Hkeep : (<[a0 := {| keyArray := a1; bytesMap := a2;
                             arrayCapacity := arrayCapacity m0;
                             bytesInKeyArray := bytesInKeyArray m0;
                             keySize := keySize m0; mapSize := mapSize m0;
                             cursor := s2; entries := entries m0 |}]> heap)
                    !! hash_table_ this = Some m).
  { rewrite lookup_insert_ne by congruence. exact Hm. }
  split; [reflexivity |]. split; [exact Hkeep |].
  unfold HashRelation_destroy. cbn [unsafe_set negb]. rewrite andb_false_r.
  split; [reflexivity | exact Hkeep].
Qed.

(** The relation of the scenario imports a second map that lives at 20480. *)
Lemma import_abandons_owned_map_witness :
  snd (snd (HashRelation_destroy
              (snd (UnsafeSetHashTableObject 3 [20480; 24576; 28672] [40; 192; 0]
                      (fst scenario_start,
                       <[20480 := createUnsafeHashMap scenario_where 16 64 4]>
                         (snd scenario_start))))))
    !! 4096
  = Some (createUnsafeHashMap scenario_where (1024 * 1024) (256 * 1024 * 1024) 4).
Proof.
  destruct (import_abandons_owned_map (fst scenario_start)
              (<[20480 := createUnsafeHashMap scenario_where 16 64 4]> (snd scenario_start))
              (createUnsafeHashMap scenario_where (1024 * 1024) (256 * 1024 * 1024) 4)
              [20480; 24576; 28672] [40; 192; 0]
              (snd (UnsafeSetHashTableObject 3 [20480; 24576; 28672] [40; 192; 0]
                      (fst scenario_start,
                       <[20480 := createUnsafeHashMap scenario_where 16 64 4]>
                         (snd scenario_start)))))
    as (_ & _ & _ & Hleft).
  - vm_compute. discriminate.
  - vm_compute. reflexivity.
  - vm_compute. discriminate.
  - vm_compute. reflexivity.
  - exact Hleft.
Defined.
